(** * Spark_Everlasting: the transform stack, the starfield and the ballerina

    A shallow embedding of the two variants of [main.js] of the repository
    ("Hierarchical Objects - Copy/main.js", below [Main], and the variant with
    the three-phase ballerina, below [Phased]) and the properties of their
    transform stack, frame timing, stars and figure animation.

    Modelling conventions.
    - A JavaScript number is a rational ([Q]) and arithmetic is exact: the
      rounding of IEEE doubles is not modelled.  A decimal literal of the
      source is the rational it denotes.
    - [Math.sin], [Math.cos] and [Math.random] are taken through the
      interface [JsMath]; the k-th call of [Math.random()] returns
      [random k], and the number of calls made so far is threaded through
      the code that draws random numbers.
    - MV.js (the matrix library the scripts load) is not part of the sources;
      its functions are taken through the interface [MV.Lib].  Each call
      returns a new object.  A matrix object is never written to after its
      creation (the scripts only rebind the variables that hold matrices), so
      an object is represented by its identity together with its contents.
    - [undefined] is [None]; reading a property of [undefined] throws a
      [TypeError].
    - The WebGL context is the record of the uniforms last uploaded and the
      list of primitives drawn since the last [gl.clear].
    - [pushes] and [pops] are ghost counters of the calls of [gPush] and
      [gPop]; nothing in the code reads them.
    - The browser is what [window.onload] finds in the page (the interface
      [Browser]: the canvas, the WebGL context and the button, each of
      which may be missing) and the list of events it delivers after
      [window.onload]: a click on the button, or an animation frame, at
      which one callback passed to [window.requestAnimFrame] runs with the
      timestamp of the frame.  webgl-utils.js, initShaders.js and the files
      of the shapes are not part of the sources: on a context their
      functions are taken to return normally. *)

From Stdlib Require Import QArith Qminmax Lqa ZArith List Lia Bool.
From coqutil Require Import Datatypes.RecordSetters.
Import ListNotations.
Import DoubleBraceUpdate.

Open Scope Q_scope.

(** ** Numbers and vectors *)

(** The comparisons [a > b] and [a < b] of JavaScript numbers. *)
Definition gtb (a b : Q) : bool := negb (Qle_bool a b).
Definition ltb (a b : Q) : bool := negb (Qle_bool b a).

Record Vec3 := vec3 { v0 : Q; v1 : Q; v2 : Q }.
Record Vec4 := vec4 { c0 : Q; c1 : Q; c2 : Q; c3 : Q }.

(** [Math]: the trigonometric functions and the random source. *)
Class JsMath := {
  sin : Q -> Q;
  cos : Q -> Q;
  random : nat -> Q
}.

(** What [window.onload] finds in the page: whether
    [document.getElementById("gl-canvas")] is an element, whether
    [WebGLUtils.setupWebGL(canvas)] returns a context, and whether
    [document.getElementById("animToggleButton")] is an element; each is
    [null] otherwise. *)
Class Browser := {
  gl_canvas : bool;
  webgl : bool;
  animToggleButton : bool
}.

(** A page in which [window.onload] finds all three. *)
Definition working {browser : Browser} : bool :=
  webgl && gl_canvas && animToggleButton.

(** [Math.random()] returns a number in [[0, 1)]: the k-th one does, and
    all of them do. *)
Definition unit_draw {math : JsMath} (k : nat) : Prop :=
  0 <= random k /\ random k < 1.

Definition random_in_unit {math : JsMath} : Prop :=
  forall k : nat, unit_draw k.

(** ** The matrix library MV.js *)

Module MV.
Class Lib := {
    Mat : Type;
    mat4 : Mat;                                (* mat4(): the identity *)
    translate : Q -> Q -> Q -> Mat;            (* translate([x, y, z]) *)
    rotate : Q -> Vec3 -> Mat;                 (* rotate(theta, [x, y, z]) *)
    scale : Q -> Q -> Q -> Mat;                (* scale(sx, sy, sz) *)
    mult : Mat -> Mat -> Mat;                  (* mult(u, v) on matrices *)
    mult_vec : Vec4 -> Vec4 -> Vec4;           (* mult(u, v) on vectors *)
    lookAt : Vec3 -> Vec3 -> Vec3 -> Mat;
    ortho : Q -> Q -> Q -> Q -> Q -> Q -> Mat;
    inverseTranspose : Mat -> Mat
  }.
End MV.

(** A matrix object: its identity and its contents. *)
Record MatObj `{MV.Lib} := { oid : nat; contents : MV.Mat }.

Inductive JsError := TypeError.

Inductive Prim := Cube | Sphere | Cylinder | Cone.

(** ** The state and error monad *)

Inductive Res (S A : Type) : Type :=
| Ok (a : A) (s : S)
| Throw (e : JsError).
Arguments Ok {S A} a s.
Arguments Throw {S A} e.

Definition M (S A : Type) : Type := S -> Res S A.

Definition ret {S A} (a : A) : M S A := fun s => Ok a s.

Definition bind {S A B} (m : M S A) (k : A -> M S B) : M S B :=
  fun s => match m s with
           | Ok a s' => k a s'
           | Throw e => Throw e
           end.

Definition throw {S A} (e : JsError) : M S A := fun _ => Throw e.
Definition get {S} : M S S := fun s => Ok s s.
Definition modify {S} (f : S -> S) : M S unit := fun s => Ok tt (f s).

Declare Scope js_scope.
Delimit Scope js_scope with js.
Notation "x <- m ;; k" := (bind m (fun x => k))
  (at level 100, m at next level, right associativity) : js_scope.
Notation "m ;; k" := (bind m (fun _ => k))
  (at level 100, right associativity) : js_scope.

(** [l.forEach(f)] *)
Fixpoint forEach {S A} (f : A -> M S unit) (l : list A) : M S unit :=
  match l with
  | [] => ret tt
  | a :: l' => (f a ;; forEach f l')%js
  end.

(** The value of a variable that must hold an object. *)
Definition the {S A} (v : option A) : M S A :=
  match v with
  | Some a => ret a
  | None => throw TypeError
  end.

(** ** Globals of the renderer *)

Section Renderer.
Context {mv : MV.Lib}.

(** The uniforms of the shader program. *)
Record Uniforms := {
  u_projectionMatrix : option MV.Mat;
  u_modelViewMatrix : option MV.Mat;
  u_normalMatrix : option MV.Mat;
  u_ambientProduct : option Vec4;
  u_diffuseProduct : option Vec4;
  u_specularProduct : option Vec4;
  u_lightPosition : option Vec4;
  u_shininess : option Q
}.

Definition no_uniforms : Uniforms :=
  {| u_projectionMatrix := None; u_modelViewMatrix := None;
     u_normalMatrix := None; u_ambientProduct := None;
     u_diffuseProduct := None; u_specularProduct := None;
     u_lightPosition := None; u_shininess := None |}.

(** A primitive drawn with the uniforms current at the time. *)
Record DrawCall := { prim : Prim; shader : Uniforms }.

Record Gfx := {
  nextOid : nat;                       (* identity of the next object *)
  modelMatrix : option MatObj;
  viewMatrix : option MatObj;
  modelViewMatrix : option MatObj;
  projectionMatrix : option MatObj;
  normalMatrix : option MatObj;
  MS : list (option MatObj);           (* the top of the stack is the head *)
  eye : option Vec3;
  ambientProduct : option Vec4;
  diffuseProduct : option Vec4;
  specularProduct : option Vec4;
  uniforms : Uniforms;
  drawn : list DrawCall;               (* most recent first *)
  pushes : nat;
  pops : nat
}.

(** The globals when the script has been loaded. *)
Definition Gfx0 : Gfx :=
  {| nextOid := 0; modelMatrix := None; viewMatrix := None;
     modelViewMatrix := None; projectionMatrix := None;
     normalMatrix := None; MS := []; eye := None;
     ambientProduct := None; diffuseProduct := None;
     specularProduct := None; uniforms := no_uniforms; drawn := [];
     pushes := 0; pops := 0 |}.

Definition lightPosition : Vec4 := vec4 0 0 100 1.
Definition lightAmbient : Vec4 := vec4 0.2 0.2 0.2 1.
Definition lightDiffuse : Vec4 := vec4 1 1 1 1.
Definition lightSpecular : Vec4 := vec4 1 1 1 1.
Definition materialDiffuse : Vec4 := vec4 1 0.8 0 1.
Definition materialSpecular : Vec4 := vec4 0.4 0.4 0.4 1.
Definition materialShininess : Q := 30.

Definition near : Q := 1.
Definition far : Q := 100.
Definition left : Q := -6.
Definition right : Q := 6.
Definition ytop : Q := 6.
Definition bottom : Q := -6.
Definition up : Vec3 := vec3 0 1 0.

Local Open Scope js_scope.

(** A call of a constructor of MV.js: a new object. *)
Definition new (m : MV.Mat) : M Gfx MatObj :=
  fun g => Ok {| oid := nextOid g; contents := m |}
              g{{ nextOid := S (nextOid g) }}.

(** [mult(u, v)] reads [u.matrix] and [v.matrix]. *)
Definition mult (u v : option MatObj) : M Gfx MatObj :=
  a <- the u ;;
  b <- the v ;;
  new (MV.mult (contents a) (contents b)).

(** [flatten(m)] of a matrix: its contents. *)
Definition flatten (m : option MatObj) : M Gfx MV.Mat :=
  a <- the m ;; ret (contents a).

(** The five [gl.uniform...] calls that end [setColor] and that [init]
    repeats; [flatten] of [undefined] throws. *)
Definition uploadLighting : M Gfx unit :=
  g <- get ;;
  a <- the (ambientProduct g) ;;
  d <- the (diffuseProduct g) ;;
  s <- the (specularProduct g) ;;
  modify (fun g => g{{ uniforms :=
    (uniforms g){{ u_ambientProduct := Some a;
                   u_diffuseProduct := Some d;
                   u_specularProduct := Some s;
                   u_lightPosition := Some lightPosition;
                   u_shininess := Some materialShininess }} }}).

Definition setColor (c : Vec4) : M Gfx unit :=
  modify (fun g => g{{ ambientProduct := Some (MV.mult_vec lightAmbient c) }}) ;;
  modify (fun g => g{{ diffuseProduct := Some (MV.mult_vec lightDiffuse c) }}) ;;
  modify (fun g => g{{ specularProduct :=
                         Some (MV.mult_vec lightSpecular materialSpecular) }}) ;;
  uploadLighting.

Definition setMV : M Gfx unit :=
  g <- get ;;
  mvm <- mult (viewMatrix g) (modelMatrix g) ;;
  modify (fun g => g{{ modelViewMatrix := Some mvm }}) ;;
  modify (fun g => g{{ uniforms :=
    (uniforms g){{ u_modelViewMatrix := Some (contents mvm) }} }}) ;;
  nm <- new (MV.inverseTranspose (contents mvm)) ;;
  modify (fun g => g{{ normalMatrix := Some nm }}) ;;
  modify (fun g => g{{ uniforms :=
    (uniforms g){{ u_normalMatrix := Some (contents nm) }} }}).

Definition setAllMatrices : M Gfx unit :=
  g <- get ;;
  p <- flatten (projectionMatrix g) ;;
  modify (fun g => g{{ uniforms :=
    (uniforms g){{ u_projectionMatrix := Some p }} }}) ;;
  setMV.

(** [Cube.draw()] and the like: the primitive is drawn with the uniforms
    as they are. *)
Definition draw (p : Prim) : M Gfx unit :=
  modify (fun g => g{{ drawn := {| prim := p; shader := uniforms g |} :: drawn g }}).

Definition drawCube : M Gfx unit := setMV ;; draw Cube.
Definition drawSphere : M Gfx unit := setMV ;; draw Sphere.
Definition drawCylinder : M Gfx unit := setMV ;; draw Cylinder.
Definition drawCone : M Gfx unit := setMV ;; draw Cone.

Definition gTranslate (x y z : Q) : M Gfx unit :=
  g <- get ;;
  t <- new (MV.translate x y z) ;;
  r <- mult (modelMatrix g) (Some t) ;;
  modify (fun g => g{{ modelMatrix := Some r }}).

Definition gRotate (theta x y z : Q) : M Gfx unit :=
  g <- get ;;
  t <- new (MV.rotate theta (vec3 x y z)) ;;
  r <- mult (modelMatrix g) (Some t) ;;
  modify (fun g => g{{ modelMatrix := Some r }}).

Definition gScale (sx sy sz : Q) : M Gfx unit :=
  g <- get ;;
  t <- new (MV.scale sx sy sz) ;;
  r <- mult (modelMatrix g) (Some t) ;;
  modify (fun g => g{{ modelMatrix := Some r }}).

(** [MS.push(modelMatrix)]: the reference held by [modelMatrix] is
    stored, whatever it is. *)
Definition gPush : M Gfx unit :=
  modify (fun g => g{{ MS := modelMatrix g :: MS g;
                       pushes := S (pushes g) }}).

(** [modelMatrix = MS.pop()]: [pop] of an empty array returns
    [undefined] and leaves the array empty. *)
Definition gPop : M Gfx unit :=
  modify (fun g =>
    match MS g with
    | [] => g{{ modelMatrix := None; pops := S (pops g) }}
    | m :: rest => g{{ MS := rest; modelMatrix := m; pops := S (pops g) }}
    end).

End Renderer.

(** ** The starfield *)

Module Star.

Record t := { x : Q; y : Q; velocity : Q; scale : Q }.

(** A new object: no field is read before [reset] has assigned it. *)
Definition blank : t := {| x := 0; y := 0; velocity := 0; scale := 0 |}.

Section Methods.
Context {math : JsMath} {mv : MV.Lib}.

(** [reset()], when [n] random numbers have been drawn so far. *)
Definition reset (this : t) (n : nat) : t * nat :=
  let this := this{{ x := -6 + random n * 12 }} in
  let this := this{{ y := -6 + random (n + 1) * 12 }} in
  let this := this{{ velocity := 0.5 + random (n + 2) * 0.2 }} in
  let this := this{{ scale := 0.02 + random (n + 3) * (0.05 - 0.02) }} in
  (this, (n + 4)%nat).

Definition constructor (n : nat) : t * nat := reset blank n.

(** [update(dt)], when [n] random numbers have been drawn so far. *)
Definition update (dt : Q) (this : t) (n : nat) : t * nat :=
  let this := this{{ x := x this + velocity this * dt }} in
  let this := this{{ y := y this + velocity this * dt }} in
  if gtb (x this) 10 || gtb (y this) 10 then
    if ltb (random n) 0.5 then
      let this := this{{ x := -6 }} in
      let this := this{{ y := -6 + random (n + 1) * 12 }} in
      (this, (n + 2)%nat)
    else
      let this := this{{ x := -6 + random (n + 1) * 12 }} in
      let this := this{{ y := -6 }} in
      (this, (n + 2)%nat)
  else (this, n).

(** [draw()]; the two variants differ in the colour only. *)
Definition draw (colour : Vec4) (this : t) : M Gfx unit :=
  (gPush ;;
   gTranslate (x this) (y this) (-10) ;;
   setColor colour ;;
   gScale (scale this) (scale this) (scale this) ;;
   drawSphere ;;
   gPop)%js.

(** [for (let i = 0; i < k; i++) stars.push(new Star())] *)
Fixpoint create (k : nat) (n : nat) : list t * nat :=
  match k with
  | O => ([], n)
  | S k' =>
      let (s, n1) := constructor n in
      let (l, n2) := create k' n1 in
      (s :: l, n2)
  end.

(** [stars.forEach(star => star.update(dt))] *)
Fixpoint updateAll (dt : Q) (stars : list t) (n : nat) : list t * nat :=
  match stars with
  | [] => ([], n)
  | s :: l =>
      let (s', n1) := update dt s n in
      let (l', n2) := updateAll dt l n1 in
      (s' :: l', n2)
  end.

End Methods.
End Star.

Definition numStars : nat := 50.

(** Statements shared by the two [render] functions. *)

Section FrameSetup.
Context {mv : MV.Lib}.
Local Open Scope js_scope.

(** [gl.clear(gl.COLOR_BUFFER_BIT | gl.DEPTH_BUFFER_BIT)] *)
Definition clear : M Gfx unit :=
  modify (fun g => g{{ drawn := [] }}).

(** [viewMatrix = lookAt(eye, at, up)] *)
Definition setView (at_ : Vec3) : M Gfx unit :=
  g <- get ;;
  e <- the (eye g) ;;
  v <- new (MV.lookAt e at_ up) ;;
  modify (fun g => g{{ viewMatrix := Some v }}).

(** [projectionMatrix = ortho(left, right, bottom, ytop, near, far)] *)
Definition setProjection : M Gfx unit :=
  p <- new (MV.ortho left right bottom ytop near far) ;;
  modify (fun g => g{{ projectionMatrix := Some p }}).

(** The first statements of [render], up to the first [setAllMatrices()]. *)
Definition beginFrame (at_ : Vec3) : M Gfx unit :=
  clear ;;
  modify (fun g => g{{ eye := Some (vec3 0 0 10) }}) ;;
  modify (fun g => g{{ MS := [] }}) ;;
  m <- new MV.mat4 ;;
  modify (fun g => g{{ modelMatrix := Some m }}) ;;
  setView at_ ;;
  setProjection ;;
  setAllMatrices.

End FrameSetup.

(** ** main.js: the ballerina with swinging limbs *)

Module Main.

Definition at_ : Vec3 := vec3 0 1 0.
Definition starColour : Vec4 := vec4 0.9 0.85 0.75 1.

Module Ballerina.

Record t := {
  position : Vec3;
  basePosition : Vec3;
  scale : Q;
  time : Q;
  rotationAngle : Q;
  rotationSpeed : Q
}.

Definition constructor (position : Vec3) (scale : Q) : t :=
  {| position := position; basePosition := position; scale := scale;
     time := 0; rotationAngle := -35; rotationSpeed := 0 |}.

Section Methods.
Context {math : JsMath} {mv : MV.Lib}.
Local Open Scope js_scope.

Definition drawHead (this : t) : M Gfx unit :=
  gPush ;;
  setColor (vec4 1 0.8 0.6 1) ;;
  gTranslate 0 (1.3 * scale this) 0.03 ;;
  gScale (0.35 * scale this) (0.36 * scale this) (0.35 * scale this) ;;
  drawSphere ;;
  gPop ;;
  gPush ;;
  setColor (vec4 1 0.8 0.6 1) ;;
  gTranslate 0 (0.8 * scale this) 0 ;;
  gScale (0.5 * scale this) (0.5 * scale this) (0.3 * scale this) ;;
  gRotate (-90) 1 0 0 ;;
  drawCone ;;
  gPop ;;
  gPush ;;
  setColor (vec4 0.4 0.2 0.1 1) ;;
  gTranslate 0 (1.3 * scale this) 0 ;;
  gScale (0.35 * scale this) (0.35 * scale this) (0.35 * scale this) ;;
  drawSphere ;;
  gPop ;;
  gPush ;;
  setColor (vec4 0.4 0.2 0.1 1) ;;
  gTranslate 0 (1.6 * scale this) (-0.06 * scale this) ;;
  gScale (0.3 * scale this) (0.3 * scale this) (0.3 * scale this) ;;
  drawSphere ;;
  gPop ;;
  gPush ;;
  setColor (vec4 0.7 0.5 0.9 1) ;;
  gTranslate 0 (1.5 * scale this) (0.2 * scale this) ;;
  gScale (0.25 * scale this) (0.10 * scale this) (0.04 * scale this) ;;
  drawCube ;;
  gPop.

Definition drawBody (this : t) : M Gfx unit :=
  gPush ;;
  setColor (vec4 0.7 0.5 0.9 1) ;;
  gTranslate 0 (0.1 * scale this) 0 ;;
  gRotate 90 1 0 0 ;;
  gScale (0.5 * scale this) (0.4 * scale this) (1 * scale this) ;;
  drawCone ;;
  gPop ;;
  gPush ;;
  setColor (vec4 0.7 0.5 0.9 1) ;;
  gTranslate 0.05 (-0.45 * scale this) 0 ;;
  gRotate (-90) 1 0 0 ;;
  gScale (1.75 * scale this) (1.75 * scale this) (1 * scale this) ;;
  drawCone ;;
  gPop.

(** The angles of the two [gRotate(..., 1, 0, 0)] calls of [drawArms] that
    animate the arm swing. *)
Definition armSwingLeft (this : t) : Q := 12 * sin (time this * 2).
Definition armSwingRight (this : t) : Q := -12 * sin (time this * 2).

Definition drawArms (this : t) : M Gfx unit :=
  let armLength := 0.6 * scale this in
  let armOffset := 0.8 * scale this in
  gPush ;;
  setColor (vec4 1 0.8 0.6 1) ;;
  gTranslate (- armOffset) (0.2 * scale this) 0 ;;
  gRotate (-45) 0 0 1 ;;
  gRotate (armSwingLeft this) 1 0 0 ;;
  gScale (0.06 * scale this) armLength (0.13 * scale this) ;;
  drawCube ;;
  gPop ;;
  gPush ;;
  setColor (vec4 1 0.8 0.6 1) ;;
  gTranslate armOffset (0.2 * scale this) 0 ;;
  gRotate 45 0 0 1 ;;
  gRotate (armSwingRight this) 1 0 0 ;;
  gScale (0.06 * scale this) armLength (0.13 * scale this) ;;
  drawCube ;;
  gPop.

(** The constants computed at the head of [drawLegs]. *)
Definition hipBend (this : t) : Q := -10 * sin (time this * 2).
Definition hipBendL (this : t) : Q := -10 * sin (time this * 2).
Definition kneeBendL (this : t) : Q := -3 * Qmax 10 (25 * sin (time this * 2)).
Definition kneeBendR (this : t) : Q := -3 * Qmax 10 (25 * cos (time this * 2)).

(** The angle and the axis of the [gRotate] call of each leg that is marked
    "Animate the hip" and depends on the time: [gRotate(hipBendL-1, -1, 0, 0)]
    for the left leg, [gRotate(-hipBend, 1, 0, 0)] for the right leg. *)
Definition hipSwingLeft (this : t) : Q := hipBendL this - 1.
Definition hipSwingRight (this : t) : Q := - hipBend this.

Definition drawLegs (this : t) : M Gfx unit :=
  let legLength := 0.5 * scale this in
  setColor (vec4 1 0.8 0.6 1) ;;
  gPush ;;
  gTranslate (-0.25 * scale this) (-1.4 * scale this) (-0.1) ;;
  gRotate 0 (-10) 0 1 ;;
  gRotate (hipSwingLeft this) (-1) 0 0 ;;
  gScale (0.15 * scale this) legLength (0.12 * scale this) ;;
  drawCube ;;
  gPush ;;
  gTranslate 0 (- legLength - 1) (-0.1) ;;
  gRotate 0 (-15) 0 1 ;;
  gRotate (- kneeBendL this) 1 0 0 ;;
  gScale 1 1.3 0.75 ;;
  drawCube ;;
  gPush ;;
  setColor (vec4 1 0.71 0.76 1) ;;
  gTranslate 0 (- legLength - 0.5) (0.06 * scale this + 1) ;;
  gScale 1 0.2 0.5 ;;
  drawCube ;;
  gPop ;;
  gPop ;;
  gPop ;;
  setColor (vec4 1 0.8 0.6 1) ;;
  gPush ;;
  gTranslate (0.2 * scale this) (-1.4 * scale this) (-0.2) ;;
  gRotate (-1) (-10) 0 0 ;;
  gRotate (hipSwingRight this) 1 0 0 ;;
  gScale (0.15 * scale this) legLength (0.12 * scale this) ;;
  drawCube ;;
  gPush ;;
  gTranslate 0 (- legLength - 1) (-0.1) ;;
  gRotate 0 15 0 1 ;;
  gRotate (- kneeBendR this) 1 0 0 ;;
  gScale 1 1.3 0.75 ;;
  drawCube ;;
  gPush ;;
  setColor (vec4 1 0.71 0.76 1) ;;
  gTranslate 0 (- legLength - 0.5) (0.06 * scale this + 1) ;;
  gScale 1 0.2 0.5 ;;
  drawCube ;;
  gPop ;;
  gPop ;;
  gPop.

Definition update (dt : Q) (this : t) : t :=
  let this := this{{ time := time this + dt }} in
  this{{ rotationAngle := rotationAngle this + 360 * dt * 0 }}.

Definition render (this : t) : M Gfx unit :=
  gPush ;;
  gTranslate (v0 (position this)) (v1 (position this)) (v2 (position this)) ;;
  gRotate (rotationAngle this) 0 1 0 ;;
  drawHead this ;;
  drawBody this ;;
  drawArms this ;;
  drawLegs this ;;
  gPop.

End Methods.
End Ballerina.

(** The globals of the script; [randoms] counts the calls of
    [Math.random()] and [requested] the callbacks passed to
    [window.requestAnimFrame] that have not run yet. *)
Record World `{MV.Lib} := {
  gfx : Gfx;
  dt : Q;
  prevTime : Q;
  resetTimerFlag : bool;
  animFlag : bool;
  stars : list Star.t;
  ballerina : Ballerina.t;
  cameraAngle : Q;
  randoms : nat;
  requested : nat
}.

Section Script.
Context {math : JsMath} {mv : MV.Lib} {browser : Browser}.
Local Open Scope js_scope.

(** A function that only touches the globals of the renderer. *)
Definition liftG {A} (p : M Gfx A) : M World A :=
  fun w => match p (gfx w) with
           | Ok a g => Ok a w{{ gfx := g }}
           | Throw e => Throw e
           end.

(** The globals once the script has been evaluated, before [window.onload]. *)
Definition loaded : World :=
  let r := Star.create numStars 0 in
  {| gfx := Gfx0; dt := 0; prevTime := 0; resetTimerFlag := true;
     animFlag := false; stars := fst r;
     ballerina := Ballerina.constructor (vec3 0 0 0) 1;
     cameraAngle := 0; randoms := snd r; requested := 0 |}.

Definition updateStars (dt : Q) : M World unit :=
  modify (fun w =>
    let r := Star.updateAll dt (stars w) (randoms w) in
    w{{ stars := fst r; randoms := snd r }}).

Definition drawStars (stars : list Star.t) : M Gfx unit :=
  gPush ;;
  g <- get ;;
  e <- the (eye g) ;;
  gTranslate (v0 e) (v1 e) (v2 e) ;;
  forEach (Star.draw starColour) stars ;;
  gPop.

Definition updateCamera (dt : Q) : M World unit :=
  modify (fun w => w{{ cameraAngle := cameraAngle w + dt * 0.5 }}) ;;
  let radius := 20 in
  w <- get ;;
  liftG (modify (fun g => g{{ eye :=
    Some (vec3 (sin (cameraAngle w) * radius) 3
               (cos (cameraAngle w) * radius)) }})).

Definition requestAnimFrame : M World unit :=
  modify (fun w => w{{ requested := S (requested w) }}).

Definition render (timestamp : Q) : M World unit :=
  liftG (beginFrame at_) ;;
  w <- get ;;
  (if animFlag w then
     modify (fun w => w{{ dt := (timestamp - prevTime w) / 1000 }}) ;;
     modify (fun w => w{{ prevTime := timestamp }})
   else ret tt) ;;
  w <- get ;;
  updateStars (dt w) ;;
  w <- get ;;
  liftG (drawStars (stars w)) ;;
  w <- get ;;
  updateCamera (dt w) ;;
  liftG (setView at_) ;;
  liftG setProjection ;;
  liftG setAllMatrices ;;
  w <- get ;;
  modify (fun w => w{{ ballerina := Ballerina.update (dt w) (ballerina w) }}) ;;
  w <- get ;;
  liftG (Ballerina.render (ballerina w)) ;;
  w <- get ;;
  if animFlag w then requestAnimFrame else ret tt.

(** The handler of the button [animToggleButton]. *)
Definition onclick : M World unit :=
  w <- get ;;
  if animFlag w then
    modify (fun w => w{{ animFlag := false }})
  else
    modify (fun w => w{{ animFlag := true }}) ;;
    modify (fun w => w{{ resetTimerFlag := true }}) ;;
    requestAnimFrame.

(** The first statements of [window.onload]:
    [gl = WebGLUtils.setupWebGL(canvas); if (!gl) alert(...);
     gl.viewport(0, 0, canvas.width, canvas.height); ...].  When [gl] is
    [null] the alert is shown and [gl.viewport] reads a property of
    [null]; when [canvas] is [null], [canvas.width] does.  The calls that
    follow, up to [gl.useProgram(program)], return on a context. *)
Definition setupWebGL : M World unit :=
  (if webgl then ret tt else throw TypeError) ;;
  (if gl_canvas then ret tt else throw TypeError).

(** [document.getElementById("animToggleButton").onclick = function ...]:
    an assignment to a property of [null] when there is no such element.
    The handler itself is [onclick]. *)
Definition setOnclick : M World unit :=
  if animToggleButton then ret tt else throw TypeError.

(** [window.onload].  [Cube.init] and the like, and the lookups of the
    uniform locations, return on a context and are left out. *)
Definition init : M World unit :=
  setupWebGL ;;
  liftG (setColor materialDiffuse) ;;
  liftG uploadLighting ;;
  setOnclick ;;
  render 0.

(** What the browser does: a click on the button, or the next animation
    frame, at which one requested callback runs. *)
Inductive Event := Click | Frame (timestamp : Q).

Definition handle (e : Event) : M World unit :=
  match e with
  | Click => onclick
  | Frame timestamp =>
      w <- get ;;
      match requested w with
      | O => ret tt
      | S k => modify (fun w => w{{ requested := k }}) ;; render timestamp
      end
  end.

(** The page after it was loaded and the events [es] happened. *)
Definition session (es : list Event) : M World unit :=
  init ;; forEach handle es.

Definition reachable (w : World) : Prop :=
  exists es, session es loaded = Ok tt w.

(** The time step that [render(timestamp)] uses, and the globals after it,
    given the state [g] in which it leaves the renderer. *)
Definition frame_dt (timestamp : Q) (w : World) : Q :=
  if animFlag w then (timestamp - prevTime w) / 1000 else dt w.

Definition after_frame (timestamp : Q) (w : World) (g : Gfx) : World :=
  let d := frame_dt timestamp w in
  {| gfx := g;
     dt := d;
     prevTime := if animFlag w then timestamp else prevTime w;
     resetTimerFlag := resetTimerFlag w;
     animFlag := animFlag w;
     stars := fst (Star.updateAll d (stars w) (randoms w));
     ballerina := Ballerina.update d (ballerina w);
     cameraAngle := cameraAngle w + d * 0.5;
     randoms := snd (Star.updateAll d (stars w) (randoms w));
     requested := if animFlag w then S (requested w) else requested w |}.

(** The globals that a completed run leaves; [loaded] stands for a run that
    threw. *)
Definition outcome (r : Res World unit) : World :=
  match r with
  | Ok _ w => w
  | Throw _ => loaded
  end.

End Script.
End Main.

(** ** The variant of main.js with the three-phase ballerina *)

Module Phased.

Definition at_ : Vec3 := vec3 0 0 0.
Definition starColour : Vec4 := vec4 1 1 1 1.

Module Ballerina.

Record t := {
  position : Vec3;
  scale : Q;
  time : Q;
  phase : Z;          (* 0: Walk, 1: Pirouette, 2: Split Jump *)
  legRotation : Q
}.

Definition constructor (position : Vec3) (scale : Q) : t :=
  {| position := position; scale := scale; time := 0; phase := 0%Z;
     legRotation := 0 |}.

Definition update (dt : Q) (this : t) : t :=
  let this := this{{ time := time this + dt }} in
  if gtb (time this) 2 then
    let this := this{{ phase := ((phase this + 1) mod 3)%Z }} in
    this{{ time := 0 }}
  else this.

Section Methods.
Context {mv : MV.Lib}.
Local Open Scope js_scope.

Definition drawLegs (this : t) : M Gfx unit :=
  gPush ;;
  setColor (vec4 1 0.8 0.8 1) ;;
  gTranslate 0 (-1.2) 0 ;;
  gRotate (legRotation this) 1 0 0 ;;
  gScale 0.2 1 0.2 ;;
  drawCube ;;
  gPop.

Definition render (this : t) : M Gfx unit :=
  gPush ;;
  gTranslate (v0 (position this)) (v1 (position this)) (v2 (position this)) ;;
  gScale (scale this) (scale this) (scale this) ;;
  drawLegs this ;;
  gPop.

End Methods.
End Ballerina.

Record World `{MV.Lib} := {
  gfx : Gfx;
  dt : Q;
  prevTime : Q;
  resetTimerFlag : bool;
  animFlag : bool;
  stars : list Star.t;
  ballerina : Ballerina.t;
  randoms : nat;
  requested : nat
}.

Section Script.
Context {math : JsMath} {mv : MV.Lib} {browser : Browser}.
Local Open Scope js_scope.

Definition liftG {A} (p : M Gfx A) : M World A :=
  fun w => match p (gfx w) with
           | Ok a g => Ok a w{{ gfx := g }}
           | Throw e => Throw e
           end.

Definition loaded : World :=
  let r := Star.create numStars 0 in
  {| gfx := Gfx0; dt := 0; prevTime := 0; resetTimerFlag := true;
     animFlag := false; stars := fst r;
     ballerina := Ballerina.constructor (vec3 0 0 0) 1;
     randoms := snd r; requested := 0 |}.

Definition updateStars (dt : Q) : M World unit :=
  modify (fun w =>
    let r := Star.updateAll dt (stars w) (randoms w) in
    w{{ stars := fst r; randoms := snd r }}).

Definition drawStars (stars : list Star.t) : M Gfx unit :=
  forEach (Star.draw starColour) stars.

Definition requestAnimFrame : M World unit :=
  modify (fun w => w{{ requested := S (requested w) }}).

Definition render (timestamp : Q) : M World unit :=
  liftG (beginFrame at_) ;;
  w <- get ;;
  (if animFlag w then
     modify (fun w => w{{ dt := (timestamp - prevTime w) / 1000 }}) ;;
     modify (fun w => w{{ prevTime := timestamp }})
   else ret tt) ;;
  w <- get ;;
  updateStars (dt w) ;;
  w <- get ;;
  liftG (drawStars (stars w)) ;;
  w <- get ;;
  modify (fun w => w{{ ballerina := Ballerina.update (dt w) (ballerina w) }}) ;;
  w <- get ;;
  liftG (Ballerina.render (ballerina w)) ;;
  w <- get ;;
  if animFlag w then requestAnimFrame else ret tt.

Definition onclick : M World unit :=
  w <- get ;;
  if animFlag w then
    modify (fun w => w{{ animFlag := false }})
  else
    modify (fun w => w{{ animFlag := true }}) ;;
    modify (fun w => w{{ resetTimerFlag := true }}) ;;
    requestAnimFrame.

(** [window.onload], as in [main.js]: without a context [gl.viewport]
    reads a property of [null], without the button the assignment of
    [onclick] does. *)
Definition setupWebGL : M World unit :=
  (if webgl then ret tt else throw TypeError) ;;
  (if gl_canvas then ret tt else throw TypeError).

Definition setOnclick : M World unit :=
  if animToggleButton then ret tt else throw TypeError.

Definition init : M World unit :=
  setupWebGL ;;
  liftG (setColor materialDiffuse) ;;
  liftG uploadLighting ;;
  setOnclick ;;
  render 0.

Inductive Event := Click | Frame (timestamp : Q).

Definition handle (e : Event) : M World unit :=
  match e with
  | Click => onclick
  | Frame timestamp =>
      w <- get ;;
      match requested w with
      | O => ret tt
      | S k => modify (fun w => w{{ requested := k }}) ;; render timestamp
      end
  end.

Definition session (es : list Event) : M World unit :=
  init ;; forEach handle es.

Definition reachable (w : World) : Prop :=
  exists es, session es loaded = Ok tt w.

Definition frame_dt (timestamp : Q) (w : World) : Q :=
  if animFlag w then (timestamp - prevTime w) / 1000 else dt w.

Definition after_frame (timestamp : Q) (w : World) (g : Gfx) : World :=
  let d := frame_dt timestamp w in
  {| gfx := g;
     dt := d;
     prevTime := if animFlag w then timestamp else prevTime w;
     resetTimerFlag := resetTimerFlag w;
     animFlag := animFlag w;
     stars := fst (Star.updateAll d (stars w) (randoms w));
     ballerina := Ballerina.update d (ballerina w);
     randoms := snd (Star.updateAll d (stars w) (randoms w));
     requested := if animFlag w then S (requested w) else requested w |}.

Definition outcome (r : Res World unit) : World :=
  match r with
  | Ok _ w => w
  | Throw _ => loaded
  end.

End Script.
End Phased.

(** ** An instance to run the scripts on

    Matrices are kept as the terms that build them; [sin] and [cos] are
    the first terms of their series; the random source cycles through
    sixteenths. *)

Module Sym.

Inductive Mat :=
| Identity
| Translate (x y z : Q)
| Rotate (theta : Q) (axis : Vec3)
| Scale (sx sy sz : Q)
| Mult (u v : Mat)
| LookAt (eye at_ up : Vec3)
| Ortho (left right bottom top near far : Q)
| InverseTranspose (m : Mat).

Definition mult_vec (u v : Vec4) : Vec4 :=
  vec4 (c0 u * c0 v) (c1 u * c1 v) (c2 u * c2 v) (c3 u * c3 v).

(** The rotations that a product of transforms applies, in the order of
    the calls that built it. *)
Fixpoint rotations (m : Mat) : list (Q * Vec3) :=
  match m with
  | Mult u v => rotations u ++ rotations v
  | Rotate theta axis => [(theta, axis)]
  | _ => []
  end.

#[export] Instance lib : MV.Lib := {|
  MV.Mat := Mat;
  MV.mat4 := Identity;
  MV.translate := Translate;
  MV.rotate := Rotate;
  MV.scale := Scale;
  MV.mult := Mult;
  MV.mult_vec := mult_vec;
  MV.lookAt := LookAt;
  MV.ortho := Ortho;
  MV.inverseTranspose := InverseTranspose
|}.

#[export] Instance math : JsMath := {|
  sin := fun a => a - a * a * a / 6;
  cos := fun a => 1 - a * a / 2;
  random := fun k => Z.of_nat ((k * 7 + 3) mod 16) # 16
|}.

(** A page with the canvas, WebGL and the button. *)
#[export] Instance browser : Browser := {|
  gl_canvas := true;
  webgl := true;
  animToggleButton := true
|}.

End Sym.

(** ** Notions used in the statements *)

Section Notions.
Context {math : JsMath} {mv : MV.Lib} {browser : Browser}.

(** The block that section 8 of the specification names:
    [push(); translate(1,0,0); rotate(90, 0,0,1); pop()]. *)
Definition push_translate_rotate_pop : M Gfx unit :=
  (gPush ;; gTranslate 1 0 0 ;; gRotate 90 0 0 1 ;; gPop)%js.

(** [p] leaves the stack as it found it. *)
Definition keeps_stack (p : M Gfx unit) : Prop :=
  forall g g', p g = Ok tt g' -> MS g' = MS g.

(** A drawing routine with [k] calls of [gPush] and as many of [gPop]: run
    with a model and a view matrix, it returns, and it leaves the model
    matrix, the view matrix, the stack and the eye as they were. *)
Definition balanced (k : nat) (p : M Gfx unit) : Prop :=
  forall g m v,
    modelMatrix g = Some m -> viewMatrix g = Some v ->
    exists g', p g = Ok tt g'
      /\ modelMatrix g' = Some m /\ viewMatrix g' = Some v
      /\ MS g' = MS g /\ eye g' = eye g
      /\ pushes g' = (pushes g + k)%nat /\ pops g' = (pops g + k)%nat.

(** "pop() fails if the stack is empty." *)
Definition pop_fails_when_empty (g : Gfx) : Prop :=
  MS g = [] -> exists e, gPop g = Throw e.

(** A star that [update] does not respawn when it does not move. *)
Definition within_bounds (s : Star.t) : Prop :=
  Star.x s <= 10 /\ Star.y s <= 10.

(** Two stars at the same place. *)
Definition same_place (s s' : Star.t) : Prop :=
  Star.x s' == Star.x s /\ Star.y s' == Star.y s.

(** "With the animation toggle off the time step is held at 0, and two
    calls of the frame callback with different timestamps produce the same
    figure pose and star positions." *)
Definition frozen (w : Main.World) : Prop :=
  Main.animFlag w = false ->
  Main.dt w == 0
  /\ forall t1 t2 w1 w2,
       Main.render t1 w = Ok tt w1 -> Main.render t2 w1 = Ok tt w2 ->
       Main.Ballerina.time (Main.ballerina w2)
         == Main.Ballerina.time (Main.ballerina w1)
       /\ Forall2 same_place (Main.stars w1) (Main.stars w2).

(** What holds of the page of [main.js] after every event: the stack is
    empty and there are [numStars] stars. *)
Definition Main_invariant (w : Main.World) : Prop :=
  MS (Main.gfx w) = [] /\ length (Main.stars w) = numStars.

(** What holds of the ballerina of the three-phase variant after every
    event. *)
Definition Phased_invariant (w : Phased.World) : Prop :=
  Phased.Ballerina.position (Phased.ballerina w) = vec3 0 0 0
  /\ Phased.Ballerina.scale (Phased.ballerina w) = 1
  /\ Phased.Ballerina.legRotation (Phased.ballerina w) = 0.

(** *** Notions of the further properties *)

(** The velocity and the scale that [reset] gives a star. *)
Definition star_in_ranges (s : Star.t) : Prop :=
  (0.5 <= Star.velocity s /\ Star.velocity s <= 0.7)
  /\ (0.02 <= Star.scale s /\ Star.scale s <= 0.05).

(** Two stars of the same velocity and scale. *)
Definition same_make (s s' : Star.t) : Prop :=
  Star.velocity s' = Star.velocity s /\ Star.scale s' = Star.scale s.

(** The ballerina of [main.js] where and as the script created it. *)
Definition Main_ballerina_stands (b : Main.Ballerina.t) : Prop :=
  Main.Ballerina.position b = vec3 0 0 0
  /\ Main.Ballerina.basePosition b = vec3 0 0 0
  /\ Main.Ballerina.scale b = 1
  /\ Main.Ballerina.rotationSpeed b = 0
  /\ Main.Ballerina.rotationAngle b == -35.

(** The phase and the time of the ballerina of the variant are in range. *)
Definition Phased_clock_in_range (b : Phased.Ballerina.t) : Prop :=
  (0 <= Phased.Ballerina.phase b < 3)%Z /\ Phased.Ballerina.time b <= 2.

(** The matrix that a parent matrix becomes by the calls of [gTranslate],
    [gRotate] and [gScale] that multiply it by [ts], in that order. *)
Definition transformed (parent : MV.Mat) (ts : list MV.Mat) : MV.Mat :=
  fold_left MV.mult ts parent.

(** The uniforms with which a primitive of colour [colour] and model-view
    matrix [modelView] is drawn, [proj] being the projection matrix
    uploaded last. *)
Definition lit (colour : Vec4) (proj : option MV.Mat) (modelView : MV.Mat)
  : Uniforms :=
  {| u_projectionMatrix := proj;
     u_modelViewMatrix := Some modelView;
     u_normalMatrix := Some (MV.inverseTranspose modelView);
     u_ambientProduct := Some (MV.mult_vec lightAmbient colour);
     u_diffuseProduct := Some (MV.mult_vec lightDiffuse colour);
     u_specularProduct := Some (MV.mult_vec lightSpecular materialSpecular);
     u_lightPosition := Some lightPosition;
     u_shininess := Some materialShininess |}.

(** The model matrix of a star under [parent], and the sphere drawn for
    it. *)
Definition star_model (parent : MV.Mat) (s : Star.t) : MV.Mat :=
  transformed parent
    [MV.translate (Star.x s) (Star.y s) (-10);
     MV.scale (Star.scale s) (Star.scale s) (Star.scale s)].

Definition star_call (colour : Vec4) (proj : option MV.Mat)
    (view parent : MV.Mat) (s : Star.t) : DrawCall :=
  {| prim := Sphere;
     shader := lit colour proj (MV.mult view (star_model parent s)) |}.

(** The model matrices of the parts of the legs of [main.js] under
    [parent]: each thigh, the shin below a thigh and the boot below a
    shin. *)
Definition leftThigh (parent : MV.Mat) (b : Main.Ballerina.t) : MV.Mat :=
  transformed parent
    [MV.translate (-0.25 * Main.Ballerina.scale b)
                  (-1.4 * Main.Ballerina.scale b) (-0.1);
     MV.rotate 0 (vec3 (-10) 0 1);
     MV.rotate (Main.Ballerina.hipSwingLeft b) (vec3 (-1) 0 0);
     MV.scale (0.15 * Main.Ballerina.scale b) (0.5 * Main.Ballerina.scale b)
              (0.12 * Main.Ballerina.scale b)].

Definition rightThigh (parent : MV.Mat) (b : Main.Ballerina.t) : MV.Mat :=
  transformed parent
    [MV.translate (0.2 * Main.Ballerina.scale b)
                  (-1.4 * Main.Ballerina.scale b) (-0.2);
     MV.rotate (-1) (vec3 (-10) 0 0);
     MV.rotate (Main.Ballerina.hipSwingRight b) (vec3 1 0 0);
     MV.scale (0.15 * Main.Ballerina.scale b) (0.5 * Main.Ballerina.scale b)
              (0.12 * Main.Ballerina.scale b)].

Definition shin (thigh : MV.Mat) (b : Main.Ballerina.t) (axis : Vec3)
    (knee : Q) : MV.Mat :=
  transformed thigh
    [MV.translate 0 (- (0.5 * Main.Ballerina.scale b) - 1) (-0.1);
     MV.rotate 0 axis;
     MV.rotate knee (vec3 1 0 0);
     MV.scale 1 1.3 0.75].

Definition boot (shin : MV.Mat) (b : Main.Ballerina.t) : MV.Mat :=
  transformed shin
    [MV.translate 0 (- (0.5 * Main.Ballerina.scale b) - 0.5)
                  (0.06 * Main.Ballerina.scale b + 1);
     MV.scale 1 0.2 0.5].

(** A primitive drawn in a colour under a model matrix. *)
Definition call (p : Prim) (colour : Vec4) (proj : option MV.Mat)
    (view model : MV.Mat) : DrawCall :=
  {| prim := p; shader := lit colour proj (MV.mult view model) |}.

(** A draw with every uniform of the shader set, and set consistently: the
    normal matrix belongs to the model-view matrix, and the ambient and
    the diffuse product to one colour. *)
Definition fully_lit (proj : option MV.Mat) (d : DrawCall) : Prop :=
  exists colour modelView, shader d = lit colour proj modelView.

(** The model-view matrices of the draws, the most recent first. *)
Definition modelViews (l : list DrawCall) : list (option MV.Mat) :=
  map (fun d => u_modelViewMatrix (shader d)) l.

(** The eye of the orbiting camera of [main.js] at an angle. *)
Definition orbit (angle : Q) : Vec3 :=
  vec3 (sin angle * 20) 3 (cos angle * 20).

End Notions.

(** Concrete inputs. *)

Module Inputs.
Import Sym.

(** A renderer whose model matrix is the identity and whose stack is empty. *)
Definition identity : MatObj := {| oid := 0; contents := Identity |}.
Definition ready : Gfx :=
  {| nextOid := 1; modelMatrix := Some identity; viewMatrix := None;
     modelViewMatrix := None; projectionMatrix := None;
     normalMatrix := None; MS := []; eye := None;
     ambientProduct := None; diffuseProduct := None;
     specularProduct := None; uniforms := no_uniforms; drawn := [];
     pushes := 0; pops := 0 |}.

(** The same with a view matrix, and the primitives that a routine draws
    from it, each with the rotations of its model-view matrix; the first
    drawn comes first. *)
Definition viewing : Gfx :=
  {| nextOid := 2; modelMatrix := Some identity;
     viewMatrix :=
       Some {| oid := 1; contents := LookAt (vec3 0 0 10) Main.at_ up |};
     modelViewMatrix := None; projectionMatrix := None;
     normalMatrix := None; MS := []; eye := Some (vec3 0 0 10);
     ambientProduct := None; diffuseProduct := None;
     specularProduct := None; uniforms := no_uniforms; drawn := [];
     pushes := 0; pops := 0 |}.

Definition rotations_drawn (p : M Gfx unit) : list (Prim * list (Q * Vec3)) :=
  match p viewing with
  | Ok _ g =>
      map (fun d => (prim d,
                     match u_modelViewMatrix (shader d) with
                     | Some m => rotations m
                     | None => []
                     end))
          (rev (drawn g))
  | Throw _ => []
  end.

(** The star of section 8 of the specification, past the right edge. *)
Definition star : Star.t :=
  {| Star.x := 10.1; Star.y := 0; Star.velocity := 0.6; Star.scale := 0.03 |}.

(** The ballerina as [main.js] creates it, at time 0. *)
Definition ballerina : Main.Ballerina.t :=
  Main.Ballerina.constructor (vec3 0 0 0) 1.

(** The page of [main.js] once loaded, then with the animation switched on
    for one frame (at 16 ms) and off again, and after the frame that was
    still requested at that moment has run (at 32 ms). *)
Definition booted : Main.World :=
  Main.outcome (Main.session [] Main.loaded).
Definition paused : Main.World :=
  Main.outcome
    (Main.session [Main.Click; Main.Frame 16; Main.Click] Main.loaded).
Definition paused_later : Main.World :=
  Main.outcome
    (Main.session [Main.Click; Main.Frame 16; Main.Click; Main.Frame 32]
       Main.loaded).

(** The animation runs for a frame at 1000 ms and is switched off; a minute
    later it is switched on again, and the next frame comes at 61016 ms. *)
Definition before_resume : Main.World :=
  Main.outcome
    (Main.session
       [Main.Click; Main.Frame 1000; Main.Click; Main.Frame 1016]
       Main.loaded).
Definition resumed : Main.World :=
  Main.outcome
    (Main.session
       [Main.Click; Main.Frame 1000; Main.Click; Main.Frame 1016;
        Main.Click; Main.Frame 61016]
       Main.loaded).

(** The page of the three-phase variant once loaded, and after three
    seconds of animation. *)
Definition phased_booted : Phased.World :=
  Phased.outcome (Phased.session [] Phased.loaded).
Definition phased_running : Phased.World :=
  Phased.outcome
    (Phased.session
       [Phased.Click; Phased.Frame 1000; Phased.Frame 2000;
        Phased.Frame 3000]
       Phased.loaded).

(** The page of [main.js] while the animation runs, after its first frame;
    the same for the variant, after a frame at 2500 ms. *)
Definition running : Main.World :=
  Main.outcome (Main.session [Main.Click; Main.Frame 16] Main.loaded).
Definition phased_advanced : Phased.World :=
  Phased.outcome
    (Phased.session [Phased.Click; Phased.Frame 2500] Phased.loaded).

(** The ballerina of [main.js] a quarter of a second into the animation,
    a page without WebGL, and the globals at the moment [window.onload]
    calls [render(0)], its first frame. *)
Definition swinging : Main.Ballerina.t :=
  Main.Ballerina.update 0.25 ballerina.

Definition no_webgl : Browser :=
  {| gl_canvas := true; webgl := false; animToggleButton := true |}.

Definition loading : Main.World :=
  Main.outcome
    ((Main.setupWebGL ;;
      Main.liftG (setColor materialDiffuse) ;;
      Main.liftG uploadLighting ;;
      Main.setOnclick)%js Main.loaded).

End Inputs.

(** ** The swing of the limbs *)

Section Limbs.
Context {math : JsMath}.

(** The angle by which [gRotate(theta, x, 0, 0)] turns about the positive
    x axis.  MV.js normalises the axis, and a rotation by [theta] about the
    negative x axis is the rotation by [- theta] about the positive one:
    [gRotate(theta, -10, 0, 0)] turns by [- theta].  A rotation about
    another axis does not count. *)
Definition about_x (r : Q * Vec3) : Q :=
  let (theta, axis) := r in
  if Qeq_bool (v1 axis) 0 && Qeq_bool (v2 axis) 0 then
    if gtb (v0 axis) 0 then theta
    else if ltb (v0 axis) 0 then - theta
    else 0
  else 0.

(** The swing of a limb: the sum of the turns about the x axis among the
    rotations applied to it, which compose by adding their angles. *)
Definition swing (rs : list (Q * Vec3)) : Q :=
  fold_right (fun r a => about_x r + a) 0 rs.

(** Every rotation of the list is about the x axis or turns by 0, so that
    the swing is all the turning there is. *)
Definition turns_about_x_only (rs : list (Q * Vec3)) : Prop :=
  Forall (fun r => fst r == 0
                   \/ (v1 (snd r) == 0 /\ v2 (snd r) == 0
                       /\ ~ v0 (snd r) == 0)) rs.

(** The rotations that a drawing routine applies to the [k]-th primitive
    it draws. *)
Definition limb (p : M (Gfx (mv := Sym.lib)) unit) (k : nat)
  : list (Q * Vec3) :=
  snd (nth k (Inputs.rotations_drawn p) (Cube, [])).

(** The arms are the two cubes of [drawArms]; the thighs are the first and
    the fourth cube of [drawLegs]. *)
Definition leftArm (b : Main.Ballerina.t) : list (Q * Vec3) :=
  limb (Main.Ballerina.drawArms b) 0.
Definition rightArm (b : Main.Ballerina.t) : list (Q * Vec3) :=
  limb (Main.Ballerina.drawArms b) 1.
Definition leftHip (b : Main.Ballerina.t) : list (Q * Vec3) :=
  limb (Main.Ballerina.drawLegs b) 0.
Definition rightHip (b : Main.Ballerina.t) : list (Q * Vec3) :=
  limb (Main.Ballerina.drawLegs b) 3.

(** "Legs and arms swing in anti-phase": the left arm swings by
    [12 * sin(2t)] and the right arm by the negation of that, and likewise
    the swing of the right hip is the negation of that of the left hip. *)
Definition limbs_in_antiphase (b : Main.Ballerina.t) : Prop :=
  swing (leftArm b) == 12 * sin (Main.Ballerina.time b * 2)
  /\ swing (rightArm b) == - swing (leftArm b)
  /\ swing (leftHip b) == - swing (rightHip b).

End Limbs.

(** * Properties *)

(** ** The transform stack *)

Section StackFacts.
Context {mv : MV.Lib}.

Lemma bind_Ok {S A B} {m : M S A} (k : A -> M S B) {s a s'} :
  m s = Ok a s' -> bind m k s = k a s'.
Proof. unfold bind; intros ->; reflexivity. Qed.

Lemma bind_inv {S A B} {m : M S A} {k : A -> M S B} {s b s''} :
  bind m k s = Ok b s'' -> exists a s', m s = Ok a s' /\ k a s' = Ok b s''.
Proof.
  unfold bind; destruct (m s) as [a s'|e]; [eauto | discriminate].
Qed.

Lemma bind_ext {S A B} (m : M S A) (k1 k2 : A -> M S B) s :
  (forall a s', m s = Ok a s' -> k1 a s' = k2 a s') ->
  bind m k1 s = bind m k2 s.
Proof.
  intros H; unfold bind; destruct (m s) as [a s'|e]; [apply H | ];
    reflexivity.
Qed.

(** The three transforms rebind [modelMatrix] and touch nothing of the
    stack. *)
Ltac transform_keeps_stack :=
  let g := fresh "g" in let g' := fresh "g'" in
  let H := fresh "H" in let E := fresh "E" in
  intros g g' H; unfold gTranslate, gRotate, gScale, mult in H;
  destruct (modelMatrix g) eqn:E;
  cbv [bind get new the ret throw modify] in H; rewrite E in H;
  [ injection H as <-; reflexivity | discriminate ].

Lemma gTranslate_keeps_stack x y z : keeps_stack (gTranslate x y z).
Proof. transform_keeps_stack. Qed.

Lemma gRotate_keeps_stack theta x y z : keeps_stack (gRotate theta x y z).
Proof. transform_keeps_stack. Qed.

Lemma gScale_keeps_stack sx sy sz : keeps_stack (gScale sx sy sz).
Proof. transform_keeps_stack. Qed.

Lemma seq_keeps_stack p q :
  keeps_stack p -> keeps_stack q -> keeps_stack (bind p (fun _ => q)).
Proof.
  intros Hp Hq g g' H.
  destruct (bind_inv H) as ([] & g1 & H1 & H2).
  rewrite (Hq _ _ H2); eauto.
Qed.

(** Whatever runs between a [gPush] and a [gPop] and leaves the stack as it
    found it, the [gPop] brings back the object that [gPush] saved. *)
Lemma push_pop_restores p :
  keeps_stack p ->
  forall g g', bind gPush (fun _ => bind p (fun _ => gPop)) g = Ok tt g' ->
    modelMatrix g' = modelMatrix g /\ MS g' = MS g.
Proof.
  intros Hp g g' H.
  destruct (bind_inv H) as ([] & g1 & H1 & H2).
  destruct (bind_inv H2) as ([] & g2 & H3 & H4).
  apply Hp in H3.
  unfold gPush, modify in H1; injection H1 as <-.
  unfold gPop, modify in H4; injection H4 as <-.
  destruct g; cbn in H3; rewrite H3; cbn; auto.
Qed.

(** C2. From every state whose current model matrix is the object [m], the
    block push(); translate(1,0,0); rotate(90, 0,0,1); pop() returns, and
    the current model matrix is then the very object [m] again (same
    identity, same contents), with the stack as it was before. *)
Theorem push_translate_rotate_pop_restores (g : Gfx) (m : MatObj) :
  modelMatrix g = Some m ->
  exists g', push_translate_rotate_pop g = Ok tt g'
    /\ modelMatrix g' = Some m /\ MS g' = MS g.
Proof.
  intros Hm.
  assert (exists g', push_translate_rotate_pop g = Ok tt g') as [g' Hg'].
  { destruct g; cbn in Hm; subst; eexists; reflexivity. }
  exists g'; split; [exact Hg' | ].
  rewrite <- Hm.
  apply (push_pop_restores (bind (gTranslate 1 0 0)
                                 (fun _ => gRotate 90 0 0 1))).
  - apply seq_keeps_stack;
      [apply gTranslate_keeps_stack | apply gRotate_keeps_stack].
  - rewrite <- Hg'. unfold push_translate_rotate_pop, bind.
    destruct (gPush g); [ | reflexivity ].
    destruct (gTranslate 1 0 0 s); reflexivity.
Qed.

(** C3, as the code has it. [gPop] on an empty stack returns normally: the
    stack stays empty and the current model matrix becomes [undefined]. *)
Theorem gPop_empty_returns_undefined (g : Gfx) :
  MS g = [] ->
  exists g', gPop g = Ok tt g' /\ modelMatrix g' = None /\ MS g' = [].
Proof.
  intros H; unfold gPop, modify; rewrite H.
  eexists; split; [reflexivity | cbn; auto].
Qed.

(** After a [gPop] on an empty stack the next transform throws, for
    [mult] reads a property of [undefined]. *)
Lemma transform_after_empty_pop_throws (g : Gfx) x y z :
  MS g = [] -> bind gPop (fun _ => gTranslate x y z) g = Throw TypeError.
Proof.
  intros H; destruct g; cbn in H; subst; reflexivity.
Qed.

End StackFacts.

Lemma push_translate_rotate_pop_witness :
  modelMatrix Inputs.ready = Some Inputs.identity
  /\ exists g', push_translate_rotate_pop Inputs.ready = Ok tt g'
       /\ modelMatrix g' = Some Inputs.identity /\ MS g' = MS Inputs.ready.
Proof.
  split; [reflexivity | ].
  apply (push_translate_rotate_pop_restores Inputs.ready); reflexivity.
Defined.

Lemma gPop_empty_witness :
  MS Inputs.ready = []
  /\ exists g', gPop Inputs.ready = Ok tt g'
       /\ modelMatrix g' = None /\ MS g' = [].
Proof.
  split; [reflexivity | ].
  apply (gPop_empty_returns_undefined Inputs.ready); reflexivity.
Defined.

(** C3, as stated, fails on a renderer whose stack is empty and whose model
    matrix is the identity: [gPop] throws nothing. *)
Lemma gPop_empty_does_not_fail :
  ~ pop_fails_when_empty Inputs.ready.
Proof.
  intros H; destruct (H eq_refl) as [e He]; discriminate He.
Qed.

(** ** Comparisons of numbers *)

Lemma gtb_true a b : gtb a b = true <-> b < a.
Proof.
  unfold gtb; rewrite negb_true_iff, <- not_true_iff_false, Qle_bool_iff.
  split; [apply Qnot_le_lt | apply Qlt_not_le].
Qed.

Lemma gtb_false a b : gtb a b = false <-> a <= b.
Proof.
  unfold gtb; rewrite negb_false_iff, Qle_bool_iff; tauto.
Qed.

Lemma ltb_true a b : ltb a b = true <-> a < b.
Proof. unfold ltb; apply (gtb_true b a). Qed.

Lemma ltb_false a b : ltb a b = false <-> b <= a.
Proof. unfold ltb; apply (gtb_false b a). Qed.

(** Case analysis on the comparisons of the goal. *)
Ltac compare_cases :=
  repeat match goal with
  | |- context [gtb ?a ?b] =>
      let E := fresh "E" in
      destruct (gtb a b) eqn:E; [apply gtb_true in E | apply gtb_false in E]
  | |- context [ltb ?a ?b] =>
      let E := fresh "E" in
      destruct (ltb a b) eqn:E; [apply ltb_true in E | apply ltb_false in E]
  end.

(** ** Stars *)

Section StarFacts.
Context {math : JsMath}.

(** C6. Let (mx, my) be the position of the star after the motion step of
    [update(dt)].  If mx > 10 or my > 10 the star is respawned: when the
    random number drawn first is below 0.5, x is -6 and y is -6 + 12 r for
    the random number r drawn next, so y lies in [-6, 6]; otherwise y is -6
    and x is -6 + 12 r, in [-6, 6].  If neither exceeds 10 the star keeps
    the position (mx, my). *)
Theorem update_respawns_at_edge (dt : Q) (this : Star.t) (n : nat) :
  unit_draw (n + 1) ->
  let mx := Star.x this + Star.velocity this * dt in
  let my := Star.y this + Star.velocity this * dt in
  let this' := fst (Star.update dt this n) in
  (10 < mx \/ 10 < my ->
     (random n < 0.5 ->
        Star.x this' = -6 /\ Star.y this' = -6 + random (n + 1) * 12
        /\ -6 <= Star.y this' <= 6)
     /\ (~ random n < 0.5 ->
        Star.y this' = -6 /\ Star.x this' = -6 + random (n + 1) * 12
        /\ -6 <= Star.x this' <= 6))
  /\ (~ (10 < mx \/ 10 < my) -> Star.x this' = mx /\ Star.y this' = my).
Proof.
  intros [Hlo Hhi] mx my this'; subst this'.
  destruct this as [x y v s].
  cbv [Star.update apply_update constant Star.x Star.y Star.velocity
       Star.scale] in *.
  fold mx my.
  compare_cases; cbn [orb fst Star.x Star.y];
    (split; [intros Hout; split; intros Hr | intros Hin]);
    try (exfalso; lra); try tauto;
    repeat split; (reflexivity || lra).
Qed.

(** C7. [reset()] places x and y in [-6, 6], the velocity in [0.5, 0.7] and
    the scale in [0.02, 0.05], whatever the four random numbers it draws
    from [0, 1) are. *)
Theorem reset_ranges (this : Star.t) (n : nat) :
  unit_draw n -> unit_draw (n + 1) -> unit_draw (n + 2) -> unit_draw (n + 3) ->
  let s := fst (Star.reset this n) in
  -6 <= Star.x s <= 6 /\ -6 <= Star.y s <= 6
  /\ 0.5 <= Star.velocity s <= 0.7 /\ 0.02 <= Star.scale s <= 0.05.
Proof.
  intros [] [] [] [] s; subst s.
  cbv [Star.reset apply_update constant Star.x Star.y Star.velocity
       Star.scale fst].
  repeat split; lra.
Qed.

(** C8. [update(dt)] leaves the velocity and the scale of the star as they
    were, on the respawn branches as on the other. *)
Theorem update_keeps_velocity_and_scale (dt : Q) (this : Star.t) (n : nat) :
  Star.velocity (fst (Star.update dt this n)) = Star.velocity this
  /\ Star.scale (fst (Star.update dt this n)) = Star.scale this.
Proof.
  destruct this as [x y v s].
  cbv [Star.update apply_update constant Star.x Star.y Star.velocity
       Star.scale].
  destruct (gtb _ 10 || gtb _ 10); [destruct (ltb _ _) | ]; split; reflexivity.
Qed.

Lemma updateAll_length dt l n :
  length (fst (Star.updateAll dt l n)) = length l.
Proof.
  revert n; induction l as [|s l IH]; intros n; cbn; [reflexivity | ].
  destruct (Star.update dt s n) as [s' n1].
  specialize (IH n1); destruct (Star.updateAll dt l n1); cbn in *; lia.
Qed.

Lemma create_length k n : length (fst (Star.create k n)) = k.
Proof.
  revert n; induction k as [|k IH]; intros n; cbn [Star.create];
    [reflexivity | ].
  destruct (Star.constructor n) as [s n1].
  specialize (IH n1); destruct (Star.create k n1); cbn in *; lia.
Qed.

(** With a time step of 0, a star within the bounds stays where it is. *)
Lemma update_still dt s n :
  dt == 0 -> within_bounds s -> same_place s (fst (Star.update dt s n)).
Proof.
  intros Hdt [Hx Hy]; destruct s as [x y v sc].
  cbv [Star.update apply_update constant Star.x Star.y Star.velocity
       Star.scale same_place] in *.
  assert (Ex : x + v * dt == x) by (rewrite Hdt; ring).
  assert (Ey : y + v * dt == y) by (rewrite Hdt; ring).
  compare_cases; cbn [orb fst Star.x Star.y]; try (exfalso; lra); auto.
Qed.

Lemma updateAll_still dt l n :
  dt == 0 -> Forall within_bounds l ->
  Forall2 same_place l (fst (Star.updateAll dt l n)).
Proof.
  intros Hdt Hl; revert n; induction Hl as [|s l Hs Hl IH]; intros n; cbn.
  - constructor.
  - pose proof (update_still dt s n Hdt Hs) as H1.
    destruct (Star.update dt s n) as [s' n1].
    specialize (IH n1); destruct (Star.updateAll dt l n1); cbn in *.
    constructor; assumption.
Qed.

(** A star is within the bounds after [reset] and after [update], as long
    as the random numbers are in [0, 1). *)
Lemma reset_within_bounds this n :
  random_in_unit -> within_bounds (fst (Star.reset this n)).
Proof.
  intros H; destruct (H n) as [? ?]; destruct (H (n + 1)%nat) as [? ?].
  cbv [Star.reset apply_update constant Star.x Star.y Star.velocity
       Star.scale fst within_bounds].
  split; lra.
Qed.

Lemma update_within_bounds dt s n :
  random_in_unit -> within_bounds (fst (Star.update dt s n)).
Proof.
  intros H; destruct (H (n + 1)%nat) as [Hlo Hhi]; destruct s as [x y v sc].
  cbv [Star.update apply_update constant Star.x Star.y Star.velocity
       Star.scale within_bounds].
  compare_cases; cbn [orb fst Star.x Star.y]; split; lra.
Qed.

Lemma updateAll_within_bounds dt l n :
  random_in_unit -> Forall within_bounds (fst (Star.updateAll dt l n)).
Proof.
  intros H; revert n; induction l as [|s l IH]; intros n; cbn.
  - constructor.
  - pose proof (update_within_bounds dt s n H) as H1.
    destruct (Star.update dt s n) as [s' n1].
    specialize (IH n1); destruct (Star.updateAll dt l n1); cbn in *.
    constructor; assumption.
Qed.

Lemma create_within_bounds k n :
  random_in_unit -> Forall within_bounds (fst (Star.create k n)).
Proof.
  intros H; revert n; induction k as [|k IH]; intros n; cbn [Star.create].
  - constructor.
  - pose proof (reset_within_bounds Star.blank n H) as H1.
    unfold Star.constructor.
    destruct (Star.reset Star.blank n) as [s n1].
    specialize (IH n1); destruct (Star.create k n1); cbn in *.
    constructor; assumption.
Qed.

End StarFacts.

Lemma update_respawns_witness :
  unit_draw (math := Sym.math) (0 + 1)
  /\ Star.x (fst (Star.update (math := Sym.math) 0 Inputs.star 0)) = -6.
Proof.
  assert (H : unit_draw (math := Sym.math) (0 + 1))
    by (split; [discriminate | reflexivity]).
  split; [exact H | ].
  destruct (update_respawns_at_edge (math := Sym.math) 0 Inputs.star 0 H)
    as [Hout _].
  destruct (Hout (or_introl eq_refl)) as [Hleft _].
  destruct (Hleft eq_refl) as [Hx _].
  exact Hx.
Defined.

Lemma reset_ranges_witness :
  unit_draw (math := Sym.math) 0 /\ unit_draw (math := Sym.math) (0 + 1)
  /\ unit_draw (math := Sym.math) (0 + 2)
  /\ unit_draw (math := Sym.math) (0 + 3)
  /\ 0.5 <= Star.velocity (fst (Star.reset (math := Sym.math) Star.blank 0))
     <= 0.7.
Proof.
  assert (H : forall k, (k < 4)%nat -> unit_draw (math := Sym.math) k).
  { intros k Hk.
    destruct k as [|[|[|[|k]]]]; [ | | | | lia ];
      (split; [discriminate | reflexivity]). }
  repeat (split; [apply H; cbn; lia | ]).
  apply (reset_ranges (math := Sym.math) Star.blank 0); apply H; cbn; lia.
Defined.

(** ** Drawing routines *)

(** Symbolic execution of straight-line code: the routine is run on a state
    whose fields are variables; numbers and matrices are left as terms. *)
Ltac run_on p g :=
  let r := eval cbv -[Qplus Qmult Qminus Qopp Qdiv Qinv Qmax
                      Nat.add Nat.mul length fst snd
                      MV.mat4 MV.translate MV.rotate MV.scale MV.mult
                      MV.mult_vec MV.lookAt MV.ortho MV.inverseTranspose
                      sin cos random] in (p g) in
  change (p g) with r.

Ltac open_state g :=
  let no := fresh "no" in let mm := fresh "mm" in let vm := fresh "vm" in
  let mvm := fresh "mvm" in let pm := fresh "pm" in let nm := fresh "nm" in
  let ms := fresh "ms" in let ey := fresh "ey" in let ap := fresh "ap" in
  let dp := fresh "dp" in let sp := fresh "sp" in let un := fresh "un" in
  let dr := fresh "dr" in let pu := fresh "pu" in let po := fresh "po" in
  destruct g as [no mm vm mvm pm nm ms ey ap dp sp un dr pu po];
  cbn [modelMatrix viewMatrix MS eye pushes pops] in *; subst.

Ltac run_balanced :=
  let g := fresh "g" in
  intros g ? ? ? ?; open_state g;
  match goal with
  | |- exists g', ?p ?g0 = _ /\ _ => run_on p g0
  end;
  eexists; split;
  [ reflexivity
  | cbn [modelMatrix viewMatrix MS eye pushes pops]; repeat split; lia ].

(** The next steps of a frame, up to the call of a routine that has a
    lemma of its own. *)
Ltac run_frame :=
  cbv -[Qplus Qmult Qminus Qopp Qdiv Qinv Qmax
        Nat.add Nat.mul length fst snd
        MV.mat4 MV.translate MV.rotate MV.scale MV.mult
        MV.mult_vec MV.lookAt MV.ortho MV.inverseTranspose
        sin cos random up Main.at_ Phased.at_
        beginFrame Star.updateAll
        Main.drawStars Main.Ballerina.render Main.Ballerina.update
        Phased.drawStars Phased.Ballerina.render Phased.Ballerina.update].

Section DrawFacts.
Context {math : JsMath} {mv : MV.Lib} {browser : Browser}.

Lemma balanced_forEach {A} (f : A -> M Gfx unit) k l :
  (forall a, balanced k (f a)) -> balanced (length l * k) (forEach f l).
Proof.
  intros Hf; induction l as [|a l IH]; intros g m v Hm Hv.
  - exists g; cbn; repeat split; auto; lia.
  - destruct (Hf a g m v Hm Hv)
      as (g1 & E1 & Hm1 & Hv1 & HS1 & He1 & Hp1 & Hq1).
    destruct (IH g1 m v Hm1 Hv1)
      as (g2 & E2 & Hm2 & Hv2 & HS2 & He2 & Hp2 & Hq2).
    exists g2; cbn [forEach]; rewrite (bind_Ok _ E1).
    repeat split; try congruence; cbn [length]; lia.
Qed.

Lemma Star_draw_balanced colour s : balanced 1 (Star.draw colour s).
Proof. run_balanced. Qed.

(** The first statements of [render] run from every state; they leave an
    empty stack, a model matrix and a view matrix. *)
Lemma beginFrame_spec at_ g :
  exists g', beginFrame at_ g = Ok tt g'
    /\ exists m v, modelMatrix g' = Some m /\ viewMatrix g' = Some v
    /\ MS g' = [] /\ eye g' = Some (vec3 0 0 10)
    /\ pushes g' = pushes g /\ pops g' = pops g.
Proof.
  open_state g.
  match goal with |- exists g', ?p ?g0 = _ /\ _ => run_on p g0 end.
  eexists; split; [reflexivity | ].
  cbn [modelMatrix viewMatrix MS eye pushes pops].
  do 2 eexists; repeat split.
Qed.

Lemma Main_Ballerina_render_balanced b :
  balanced 16 (Main.Ballerina.render b).
Proof. run_balanced. Qed.

Lemma Phased_Ballerina_render_balanced b :
  balanced 2 (Phased.Ballerina.render b).
Proof. run_balanced. Qed.

Lemma Main_drawStars_spec l g m v e :
  modelMatrix g = Some m -> viewMatrix g = Some v -> eye g = Some e ->
  exists g', Main.drawStars l g = Ok tt g'
    /\ modelMatrix g' = Some m /\ viewMatrix g' = Some v
    /\ MS g' = MS g /\ eye g' = eye g
    /\ pushes g' = (pushes g + S (length l))%nat
    /\ pops g' = (pops g + S (length l))%nat.
Proof.
  intros Hm Hv He; open_state g.
  unfold Main.drawStars.
  match goal with
  | |- context [forEach ?f l] => set (loop := forEach f l)
  end.
  cbv -[Qplus Qmult Qminus Qopp Qdiv Qinv Qmax Nat.add Nat.mul length
        MV.mat4 MV.translate MV.rotate MV.scale MV.mult MV.mult_vec
        MV.lookAt MV.ortho MV.inverseTranspose sin cos random loop gPop].
  match goal with
  | |- context [loop ?g] =>
      destruct (balanced_forEach (Star.draw Main.starColour) 1 l
                  (Star_draw_balanced Main.starColour) g _ _
                  eq_refl eq_refl)
        as (g1 & E1 & Hm1 & Hv1 & HS1 & He1 & Hp1 & Hq1)
  end.
  fold loop in E1; rewrite E1; open_state g1.
  eexists; split; [reflexivity | ].
  cbv -[Nat.add Nat.mul length]; repeat split; lia.
Qed.

Lemma Phased_drawStars_balanced l :
  balanced (length l * 1) (Phased.drawStars l).
Proof.
  apply balanced_forEach; intros s; apply Star_draw_balanced.
Qed.

End DrawFacts.

(** ** main.js: frames *)

Section MainFacts.
Context {math : JsMath} {mv : MV.Lib} {browser : Browser}.

(** A frame, from every state of the page: [render(timestamp)] returns, the
    globals other than those of the renderer are as [after_frame] says, the
    stack is empty, and [gPush] and [gPop] have each been called once for
    the starfield, once per star and 16 times for the ballerina. *)
Lemma Main_render_spec ts w :
  exists g', Main.render ts w = Ok tt (Main.after_frame ts w g')
    /\ MS g' = []
    /\ pushes g' = (pushes (Main.gfx w) + (17 + length (Main.stars w)))%nat
    /\ pops g' = (pops (Main.gfx w) + (17 + length (Main.stars w)))%nat.
Proof.
  destruct w as [g d pt rf af st b ca rn rq].
  destruct (beginFrame_spec Main.at_ g)
    as (g1 & E1 & m1 & v1 & Hm1 & Hv1 & HS1 & He1 & Hp1 & Hq1).
  open_state g1.
  destruct af; run_frame; rewrite E1;
    match goal with
    | |- context [Main.drawStars ?l ?g1] =>
        destruct (Main_drawStars_spec l g1 m1 v1 _ eq_refl eq_refl eq_refl)
          as (g2 & E2 & Hm2 & Hv2 & HS2 & He2 & Hp2 & Hq2)
    end;
    rewrite E2; open_state g2; run_frame;
    match goal with
    | |- context [Main.Ballerina.render ?b ?g] =>
        destruct (Main_Ballerina_render_balanced b g _ _ eq_refl eq_refl)
          as (g3 & E3 & Hm3 & Hv3 & HS3 & He3 & Hp3 & Hq3)
    end;
    rewrite E3; open_state g3;
    (eexists; split; [reflexivity | ]);
    cbn [modelMatrix viewMatrix MS eye pushes pops fst snd length];
    rewrite updateAll_length;
    (split; [reflexivity | split; lia]).
Qed.

Lemma Main_render_inv ts w w' :
  Main.render ts w = Ok tt w' ->
  exists g', w' = Main.after_frame ts w g'
    /\ MS g' = []
    /\ pushes g' = (pushes (Main.gfx w) + (17 + length (Main.stars w)))%nat
    /\ pops g' = (pops (Main.gfx w) + (17 + length (Main.stars w)))%nat.
Proof.
  intros H; destruct (Main_render_spec ts w) as (g' & E & HS & Hp & Hq).
  exists g'; rewrite E in H; injection H as <-; auto.
Qed.

(** The button only touches the flags and the queue of requested frames. *)
Lemma Main_onclick_spec w :
  exists w', Main.onclick w = Ok tt w'
    /\ Main.gfx w' = Main.gfx w /\ Main.stars w' = Main.stars w
    /\ Main.ballerina w' = Main.ballerina w
    /\ Main.dt w' = Main.dt w /\ Main.prevTime w' = Main.prevTime w
    /\ Main.animFlag w' = negb (Main.animFlag w)
    /\ (Main.animFlag w = false ->
        Main.resetTimerFlag w' = true
        /\ Main.requested w' = S (Main.requested w)).
Proof.
  destruct w as [g d pt rf af st b ca rn rq]; destruct af;
    (eexists; split; [reflexivity | cbn; repeat split; congruence]).
Qed.

Lemma Main_liftG_inv {A} (p : M Gfx A) w a w' :
  Main.liftG p w = Ok a w' ->
  exists g', w' = w{{ Main.gfx := g' }}.
Proof.
  unfold Main.liftG; destruct (p (Main.gfx w)) as [a' g'|e];
    [ | discriminate ].
  intros H; injection H as _ <-; exists g'; reflexivity.
Qed.

Lemma Main_stars_set_gfx (w : Main.World) g :
  Main.stars w{{ Main.gfx := g }} = Main.stars w.
Proof. destruct w; reflexivity. Qed.

Lemma Main_animFlag_set_gfx (w : Main.World) g :
  Main.animFlag w{{ Main.gfx := g }} = Main.animFlag w.
Proof. destruct w; reflexivity. Qed.

(** A frame event runs one requested callback, if there is one. *)
Lemma Main_handle_frame ts w :
  Main.handle (Main.Frame ts) w
  = match Main.requested w with
    | O => Ok tt w
    | S k => Main.render ts w{{ Main.requested := k }}
    end.
Proof.
  destruct (Main.requested w) eqn:E; cbn; unfold bind, get; rewrite E;
    reflexivity.
Qed.

Lemma Main_handle_invariant e w w' :
  Main.handle e w = Ok tt w' -> Main_invariant w -> Main_invariant w'.
Proof.
  intros H [HS Hn]; destruct e as [|ts].
  - destruct (Main_onclick_spec w) as (w1 & E & Hg & Hst & _).
    cbn [Main.handle] in H; rewrite E in H; injection H as <-.
    split; congruence.
  - rewrite Main_handle_frame in H.
    destruct (Main.requested w) as [|k] eqn:Ek.
    + injection H as <-; split; assumption.
    + apply Main_render_inv in H; destruct H as (g' & -> & HS' & _).
      split; [exact HS' | ].
      cbn [Main.after_frame Main.stars]; rewrite updateAll_length.
      destruct w; exact Hn.
Qed.

Lemma Main_events_invariant es w w' :
  forEach Main.handle es w = Ok tt w' -> Main_invariant w -> Main_invariant w'.
Proof.
  revert w; induction es as [|e es IH]; intros w H Hw; cbn [forEach] in H.
  - injection H as <-; exact Hw.
  - destruct (bind_inv H) as ([] & w1 & H1 & H2).
    eauto using Main_handle_invariant.
Qed.

Lemma working_true :
  working = true ->
  webgl = true /\ gl_canvas = true /\ animToggleButton = true.
Proof.
  unfold working; destruct webgl, gl_canvas, animToggleButton;
    intros H; try discriminate H; auto.
Qed.

(** In a page with the canvas, WebGL and the button, [window.onload]
    returns: it ends with the frame [render(0)]. *)
Lemma Main_init_spec w :
  working = true ->
  exists ga g',
    Main.init w = Ok tt (Main.after_frame 0 w{{ Main.gfx := ga }} g')
    /\ MS g' = [].
Proof.
  intros Hb; destruct (working_true Hb) as (H1 & H2 & H3).
  destruct w as [g d pt rf af st b ca rn rq]; open_state g.
  unfold Main.init, Main.setupWebGL, Main.setOnclick; rewrite H1, H2, H3.
  cbv -[Qplus Qmult Qminus Qopp Qdiv Qinv Qmax
        Nat.add Nat.mul length fst snd
        MV.mat4 MV.translate MV.rotate MV.scale MV.mult
        MV.mult_vec MV.lookAt MV.ortho MV.inverseTranspose
        sin cos random Main.render Main.after_frame].
  match goal with
  | |- context [Main.render 0 ?w] =>
      destruct (Main_render_spec 0 w) as (g' & E & HS & _); rewrite E
  end.
  do 2 eexists; split; [reflexivity | exact HS].
Qed.

(** Without one of them it throws, whatever the globals are. *)
Lemma Main_init_fails w :
  working = false -> Main.init w = Throw TypeError.
Proof.
  destruct w as [g d pt rf af st b ca rn rq]; open_state g.
  unfold working, Main.init, Main.setupWebGL, Main.setOnclick.
  destruct webgl, gl_canvas, animToggleButton; cbn [andb]; intros H;
    try discriminate H; reflexivity.
Qed.

Lemma Main_init_inv w w' :
  Main.init w = Ok tt w' ->
  exists ga g', w' = Main.after_frame 0 w{{ Main.gfx := ga }} g'
    /\ MS g' = [].
Proof.
  intros H; destruct working eqn:Hb.
  - destruct (Main_init_spec w Hb) as (ga & g' & E & HS).
    rewrite E in H; injection H as <-.
    exists ga, g'; split; [reflexivity | exact HS].
  - rewrite (Main_init_fails w Hb) in H; discriminate H.
Qed.

Lemma Main_session_inv es w0 w :
  Main.session es w0 = Ok tt w ->
  exists w1, Main.init w0 = Ok tt w1 /\ forEach Main.handle es w1 = Ok tt w.
Proof.
  unfold Main.session; intros H.
  apply bind_inv in H; destruct H as ([] & w1 & H0 & H1); eauto.
Qed.

Lemma Main_loaded_stars : length (Main.stars Main.loaded) = numStars.
Proof. unfold Main.loaded; cbn [Main.stars]; apply create_length. Qed.

Lemma Main_reachable_invariant w : Main.reachable w -> Main_invariant w.
Proof.
  intros [es H].
  apply Main_session_inv in H; destruct H as (w1 & H0 & H1).
  apply (Main_events_invariant es w1 w H1).
  apply Main_init_inv in H0; destruct H0 as (ga & g' & -> & HS').
  split; [exact HS' | ].
  cbn [Main.after_frame Main.stars].
  rewrite updateAll_length, Main_stars_set_gfx.
  apply Main_loaded_stars.
Qed.

(** C1. One call of [render(timestamp)], from every state of the globals
    with the 50 stars (the state in which [window.onload] calls
    [render(0)] and every state in which a frame callback runs are such):
    it returns; it calls [gPush] 67 times (once for the starfield, once
    for each of the 50 stars, 16 times for the ballerina) and [gPop] 67
    times; and the stack, which [render] empties before it draws, is empty
    at its end: the calls of [gPop] have undone those of [gPush].  So
    where the stack is empty at the start, it is at the end what it was at
    the start. *)
Theorem render_balances_stack (w : Main.World) (timestamp : Q) :
  length (Main.stars w) = numStars ->
  exists w', Main.render timestamp w = Ok tt w'
    /\ pushes (Main.gfx w') = (pushes (Main.gfx w) + 67)%nat
    /\ pops (Main.gfx w') = (pops (Main.gfx w) + 67)%nat
    /\ MS (Main.gfx w') = []
    /\ (MS (Main.gfx w) = [] -> MS (Main.gfx w') = MS (Main.gfx w)).
Proof.
  intros Hn.
  destruct (Main_render_spec timestamp w) as (g' & E & HS' & Hp & Hq).
  exists (Main.after_frame timestamp w g'); split; [exact E | ].
  cbn [Main.after_frame Main.gfx].
  rewrite Hp, Hq, HS', Hn; repeat split.
  intros HS; rewrite HS; reflexivity.
Qed.

(** With the toggle off, [render] does not read its argument. *)
Lemma Main_render_paused t1 t2 w :
  Main.animFlag w = false -> Main.render t1 w = Main.render t2 w.
Proof.
  intros Hoff; unfold Main.render.
  apply bind_ext; intros [] w1 H1.
  assert (Hoff1 : Main.animFlag w1 = false).
  { apply Main_liftG_inv in H1; destruct H1 as (g1 & ->).
    rewrite Main_animFlag_set_gfx; exact Hoff. }
  apply bind_ext; intros w2 w3 H2; unfold get in H2; injection H2 as <- <-.
  rewrite Hoff1; reflexivity.
Qed.

(** A frame of [main.js] with the toggle off. *)
Lemma Main_paused_frame (w : Main.World) (t1 t2 : Q) :
  Main.animFlag w = false ->
  Main.render t1 w = Main.render t2 w
  /\ forall w', Main.render t1 w = Ok tt w' ->
       Main.dt w' = Main.dt w /\ Main.prevTime w' = Main.prevTime w
       /\ (Main.dt w == 0 -> Forall within_bounds (Main.stars w) ->
           Main.Ballerina.time (Main.ballerina w')
             == Main.Ballerina.time (Main.ballerina w)
           /\ Forall2 same_place (Main.stars w) (Main.stars w')).
Proof.
  intros Hoff; split; [apply Main_render_paused; exact Hoff | ].
  intros w' H; apply Main_render_inv in H; destruct H as (g' & -> & _).
  unfold Main.after_frame, Main.frame_dt; rewrite Hoff.
  cbn [Main.dt Main.prevTime Main.ballerina Main.stars].
  repeat split; try reflexivity.
  - unfold Main.Ballerina.update; destruct (Main.ballerina w).
    cbv [apply_update constant Main.Ballerina.time]; rewrite H; ring.
  - apply updateAll_still; assumption.
Qed.

(** The first frame after the button has switched the animation on: its
    time step is the time since [prevTime], the timestamp of the last
    frame that ran with the animation on; [resetTimerFlag] is set and
    plays no part. *)
Lemma first_resumed_frame w ts w1 w2 :
  Main.animFlag w = false ->
  Main.onclick w = Ok tt w1 -> Main.handle (Main.Frame ts) w1 = Ok tt w2 ->
  Main.resetTimerFlag w2 = true
  /\ Main.dt w2 = (ts - Main.prevTime w) / 1000.
Proof.
  intros Hoff H1 H2.
  destruct (Main_onclick_spec w)
    as (w1' & E & _ & _ & _ & _ & Hpt & Hon & Hreset).
  rewrite E in H1; injection H1 as ->.
  destruct (Hreset Hoff) as [Hrf Hrq]; rewrite Hoff in Hon.
  rewrite Main_handle_frame, Hrq in H2.
  apply Main_render_inv in H2; destruct H2 as (g' & -> & _).
  unfold Main.after_frame, Main.frame_dt.
  destruct w1 as [g d pt rf af st b ca rn rq].
  cbn [Main.animFlag Main.prevTime Main.resetTimerFlag] in *.
  subst; split; reflexivity.
Qed.

(** Every star of a page that the events can lead to is within the bounds,
    when the random numbers are in [0, 1). *)
Lemma Main_events_within_bounds es w w' :
  random_in_unit ->
  forEach Main.handle es w = Ok tt w' ->
  Forall within_bounds (Main.stars w) -> Forall within_bounds (Main.stars w').
Proof.
  intros Hr; revert w; induction es as [|e es IH]; intros w H Hw;
    cbn [forEach] in H.
  - injection H as <-; exact Hw.
  - apply bind_inv in H; destruct H as ([] & w1 & H1 & H2).
    apply (IH w1 H2); destruct e as [|ts].
    + destruct (Main_onclick_spec w) as (w1' & E & _ & Hst & _).
      cbn [Main.handle] in H1.
      rewrite E in H1; injection H1 as <-; rewrite Hst; exact Hw.
    + rewrite Main_handle_frame in H1.
      destruct (Main.requested w) as [|k].
      * injection H1 as <-; exact Hw.
      * apply Main_render_inv in H1; destruct H1 as (g' & -> & _).
        cbn [Main.after_frame Main.stars].
        apply updateAll_within_bounds; exact Hr.
Qed.

Lemma Main_reachable_within_bounds w :
  random_in_unit -> Main.reachable w -> Forall within_bounds (Main.stars w).
Proof.
  intros Hr [es H].
  apply Main_session_inv in H; destruct H as (w1 & H0 & H1).
  apply (Main_events_within_bounds es w1 w Hr H1).
  apply Main_init_inv in H0; destruct H0 as (ga & g' & -> & _).
  cbn [Main.after_frame Main.stars].
  apply updateAll_within_bounds; exact Hr.
Qed.

End MainFacts.

Lemma Inputs_booted_reachable :
  Main.reachable (math := Sym.math) (browser := Sym.browser) Inputs.booted.
Proof. exists []; vm_compute; reflexivity. Qed.

Lemma render_balances_stack_witness :
  Main.init (math := Sym.math) (browser := Sym.browser)
    (Main.loaded (math := Sym.math))
  = Main.render (math := Sym.math) 0 Inputs.loading
  /\ length (Main.stars Inputs.loading) = numStars
  /\ exists w', Main.render (math := Sym.math) 0 Inputs.loading = Ok tt w'
       /\ pushes (Main.gfx w') = (pushes (Main.gfx Inputs.loading) + 67)%nat
       /\ pops (Main.gfx w') = (pops (Main.gfx Inputs.loading) + 67)%nat
       /\ MS (Main.gfx w') = [].
Proof.
  assert (Hn : length (Main.stars Inputs.loading) = numStars)
    by (vm_compute; reflexivity).
  split; [vm_compute; reflexivity | ].
  split; [exact Hn | ].
  destruct (render_balances_stack (math := Sym.math) Inputs.loading 0 Hn)
    as (w' & E & Hp & Hq & HS & _).
  exists w'; repeat split; assumption.
Defined.

(** C4, as stated, fails on the page whose animation ran for one frame and
    was switched off: the toggle is off and [dt] is still the 0.016 s of
    that frame. *)
Lemma frozen_fails_after_pause : ~ frozen (math := Sym.math) Inputs.paused.
Proof.
  assert (Hoff : Main.animFlag Inputs.paused = false)
    by (vm_compute; reflexivity).
  intros H; destruct (H Hoff) as [Hdt _].
  vm_compute in Hdt; discriminate Hdt.
Qed.

(** That page is one the events lead to, and the frame that was still
    requested when the button was pressed moves the ballerina and the
    stars although the toggle is off; so does a further call of [render]. *)
Lemma paused_frame_moves :
  Main.reachable (math := Sym.math) (browser := Sym.browser) Inputs.paused
  /\ Main.reachable (math := Sym.math) (browser := Sym.browser) Inputs.paused_later
  /\ Main.animFlag Inputs.paused = false
  /\ Main.dt Inputs.paused == 0.016
  /\ Main.Ballerina.time (Main.ballerina Inputs.paused) == 0.016
  /\ Main.Ballerina.time (Main.ballerina Inputs.paused_later) == 0.032
  /\ Main.Ballerina.time
       (Main.ballerina
          (Main.outcome (math := Sym.math)
             (Main.render (math := Sym.math) 48 Inputs.paused_later)))
     == 0.048
  /\ ~ Forall2 same_place (Main.stars Inputs.paused)
                          (Main.stars Inputs.paused_later).
Proof.
  split; [exists [Main.Click; Main.Frame 16; Main.Click];
          vm_compute; reflexivity | ].
  split; [exists [Main.Click; Main.Frame 16; Main.Click; Main.Frame 32];
          vm_compute; reflexivity | ].
  repeat (split; [vm_compute; reflexivity | ]).
  intros H.
  assert (Hd : exists s s' l l',
             Main.stars Inputs.paused = s :: l
             /\ Main.stars Inputs.paused_later = s' :: l'
             /\ ~ Star.x s' == Star.x s).
  { vm_compute; do 4 eexists; repeat split; discriminate. }
  destruct Hd as (s & s' & l & l' & E & E' & Hx).
  rewrite E, E' in H; inversion H as [|? ? ? ? [Hs _] _]; subst.
  exact (Hx Hs).
Qed.

(** C5 at the failing input. The animation ran for a frame at 1000 ms and
    was switched off; it is switched on a minute later and the next frame
    comes at 61016 ms.  [resetTimerFlag] is set, and the time step of that
    frame is the 60.016 s since the frame at 1000 ms. *)
Theorem resume_applies_paused_interval :
  Main.session (math := Sym.math) (browser := Sym.browser)
    [Main.Click; Main.Frame 1000; Main.Click; Main.Frame 1016;
     Main.Click; Main.Frame 61016] (Main.loaded (math := Sym.math))
  = Ok tt Inputs.resumed
  /\ Main.animFlag Inputs.before_resume = false
  /\ Main.prevTime Inputs.before_resume == 1000
  /\ Main.resetTimerFlag Inputs.resumed = true
  /\ Main.dt Inputs.resumed == 60.016.
Proof.
  split; [vm_compute; reflexivity | ].
  repeat split; vm_compute; reflexivity.
Qed.

(** What [drawArms] and [drawLegs] draw, at every time: the two arms, each
    turned by 45 degrees about (0, 0, 1) and then by its swing angle about
    (1, 0, 0); the left thigh, turned by [hipSwingLeft] about (-1, 0, 0);
    the right thigh, turned by -1 about (-10, 0, 0) and by [hipSwingRight]
    about (1, 0, 0); after each thigh, its shin and its boot, which
    inherit the rotations of the thigh. *)
Lemma limb_rotations_drawn {math : JsMath} (b : Main.Ballerina.t) :
  Inputs.rotations_drawn (Main.Ballerina.drawArms b)
  = [ (Cube, [(-45, vec3 0 0 1);
              (Main.Ballerina.armSwingLeft b, vec3 1 0 0)]);
      (Cube, [(45, vec3 0 0 1);
              (Main.Ballerina.armSwingRight b, vec3 1 0 0)]) ]
  /\ Inputs.rotations_drawn (Main.Ballerina.drawLegs b)
     = [ (Cube, [(0, vec3 (-10) 0 1);
                 (Main.Ballerina.hipSwingLeft b, vec3 (-1) 0 0)]);
         (Cube, [(0, vec3 (-10) 0 1);
                 (Main.Ballerina.hipSwingLeft b, vec3 (-1) 0 0);
                 (0, vec3 (-15) 0 1);
                 (- Main.Ballerina.kneeBendL b, vec3 1 0 0)]);
         (Cube, [(0, vec3 (-10) 0 1);
                 (Main.Ballerina.hipSwingLeft b, vec3 (-1) 0 0);
                 (0, vec3 (-15) 0 1);
                 (- Main.Ballerina.kneeBendL b, vec3 1 0 0)]);
         (Cube, [(-1, vec3 (-10) 0 0);
                 (Main.Ballerina.hipSwingRight b, vec3 1 0 0)]);
         (Cube, [(-1, vec3 (-10) 0 0);
                 (Main.Ballerina.hipSwingRight b, vec3 1 0 0);
                 (0, vec3 15 0 1);
                 (- Main.Ballerina.kneeBendR b, vec3 1 0 0)]);
         (Cube, [(-1, vec3 (-10) 0 0);
                 (Main.Ballerina.hipSwingRight b, vec3 1 0 0);
                 (0, vec3 15 0 1);
                 (- Main.Ballerina.kneeBendR b, vec3 1 0 0)]) ].
Proof.
  split;
    cbv -[Qplus Qmult Qminus Qopp Qdiv Qinv Qmax sin cos
          Main.Ballerina.armSwingLeft Main.Ballerina.armSwingRight
          Main.Ballerina.hipSwingLeft Main.Ballerina.hipSwingRight
          Main.Ballerina.kneeBendL Main.Ballerina.kneeBendR];
    reflexivity.
Qed.

(** C9, as the code has it. At every time t the arms swing in
    anti-phase: [drawArms] turns the left arm by 12 sin(2t) about the x
    axis and the right arm by -12 sin(2t) (after turns by -45 and by 45
    degrees about the z axis).  The legs do not: [drawLegs] turns the left
    hip by -10 sin(2t) - 1 about (-1, 0, 0) and the right hip by -1 about
    (-10, 0, 0) and then by 10 sin(2t) about (1, 0, 0); these rotations
    are about the x axis, and about the positive x axis both hips are
    turned by the same angle, 10 sin(2t) + 1. *)
Theorem limb_swing_angles {math : JsMath} (b : Main.Ballerina.t) :
  let s := sin (Main.Ballerina.time b * 2) in
  leftArm b = [(-45, vec3 0 0 1); (12 * s, vec3 1 0 0)]
  /\ rightArm b = [(45, vec3 0 0 1); (-12 * s, vec3 1 0 0)]
  /\ leftHip b = [(0, vec3 (-10) 0 1); (-10 * s - 1, vec3 (-1) 0 0)]
  /\ rightHip b = [(-1, vec3 (-10) 0 0); (- (-10 * s), vec3 1 0 0)]
  /\ swing (leftArm b) == 12 * s
  /\ swing (rightArm b) == - swing (leftArm b)
  /\ turns_about_x_only (leftHip b) /\ turns_about_x_only (rightHip b)
  /\ swing (leftHip b) == 10 * s + 1
  /\ swing (rightHip b) == swing (leftHip b).
Proof.
  intros s.
  destruct (limb_rotations_drawn b) as [Ha Hl].
  unfold leftArm, rightArm, leftHip, rightHip, limb.
  rewrite Ha, Hl; cbn [nth snd].
  unfold Main.Ballerina.armSwingLeft, Main.Ballerina.armSwingRight,
    Main.Ballerina.hipSwingLeft, Main.Ballerina.hipSwingRight,
    Main.Ballerina.hipBend, Main.Ballerina.hipBendL; fold s.
  do 4 (split; [reflexivity | ]).
  change (swing [(-45, vec3 0 0 1); (12 * s, vec3 1 0 0)])
    with (0 + (12 * s + 0)).
  change (swing [(45, vec3 0 0 1); (-12 * s, vec3 1 0 0)])
    with (0 + (-12 * s + 0)).
  change (swing [(0, vec3 (-10) 0 1); (-10 * s - 1, vec3 (-1) 0 0)])
    with (0 + (- (-10 * s - 1) + 0)).
  change (swing [(-1, vec3 (-10) 0 0); (- (-10 * s), vec3 1 0 0)])
    with (- -1 + (- (-10 * s) + 0)).
  split; [ring | split; [ring | ]].
  split; [ | split; [ | split; ring]].
  - apply Forall_cons; [left; reflexivity | ].
    apply Forall_cons; [ | apply Forall_nil].
    right; cbn [fst snd v0 v1 v2]; repeat split; try reflexivity.
    discriminate.
  - apply Forall_cons; [ | apply Forall_cons; [ | apply Forall_nil]];
      right; cbn [fst snd v0 v1 v2]; repeat split; try reflexivity;
      discriminate.
Qed.

(** C9, as stated, fails a quarter of a second into the animation: both
    hips are turned by the same angle, which is not 0. *)
Lemma limbs_not_in_antiphase :
  ~ limbs_in_antiphase (math := Sym.math) Inputs.swinging.
Proof.
  intros (_ & _ & H); vm_compute in H; discriminate H.
Qed.

(** ** The three-phase variant *)

Section PhasedFacts.
Context {math : JsMath} {mv : MV.Lib} {browser : Browser}.

(** A frame of the variant: one [gPush] and [gPop] per star and two for
    the ballerina. *)
Lemma Phased_render_spec ts w :
  exists g', Phased.render ts w = Ok tt (Phased.after_frame ts w g')
    /\ MS g' = []
    /\ pushes g'
       = (pushes (Phased.gfx w) + (length (Phased.stars w) + 2))%nat
    /\ pops g' = (pops (Phased.gfx w) + (length (Phased.stars w) + 2))%nat.
Proof.
  destruct w as [g d pt rf af st b rn rq].
  destruct (beginFrame_spec Phased.at_ g)
    as (g1 & E1 & m1 & v1 & Hm1 & Hv1 & HS1 & He1 & Hp1 & Hq1).
  open_state g1.
  destruct af; run_frame; rewrite E1;
    match goal with
    | |- context [Phased.drawStars ?l ?g1] =>
        destruct (Phased_drawStars_balanced l g1 m1 v1 eq_refl eq_refl)
          as (g2 & E2 & Hm2 & Hv2 & HS2 & He2 & Hp2 & Hq2)
    end;
    rewrite E2; open_state g2; run_frame;
    match goal with
    | |- context [Phased.Ballerina.render ?b ?g] =>
        destruct (Phased_Ballerina_render_balanced b g _ _ eq_refl eq_refl)
          as (g3 & E3 & Hm3 & Hv3 & HS3 & He3 & Hp3 & Hq3)
    end;
    rewrite E3; open_state g3;
    (eexists; split; [reflexivity | ]);
    cbn [modelMatrix viewMatrix MS eye pushes pops fst snd length];
    rewrite updateAll_length;
    (split; [reflexivity | split; lia]).
Qed.

Lemma Phased_render_inv ts w w' :
  Phased.render ts w = Ok tt w' ->
  exists g', w' = Phased.after_frame ts w g'.
Proof.
  intros H; destruct (Phased_render_spec ts w) as (g' & E & _).
  exists g'; rewrite E in H; injection H as <-; reflexivity.
Qed.

(** [update] assigns [time] and [phase] only. *)
Lemma Phased_update_keeps dt b :
  Phased.Ballerina.position (Phased.Ballerina.update dt b)
    = Phased.Ballerina.position b
  /\ Phased.Ballerina.scale (Phased.Ballerina.update dt b)
    = Phased.Ballerina.scale b
  /\ Phased.Ballerina.legRotation (Phased.Ballerina.update dt b)
    = Phased.Ballerina.legRotation b.
Proof.
  destruct b as [p s t ph lr]; unfold Phased.Ballerina.update.
  cbv [apply_update constant Phased.Ballerina.time].
  destruct (gtb (t + dt) 2); repeat split.
Qed.

(** What [render] draws depends on the position, the scale and
    [legRotation] of the ballerina, not on its time or phase. *)
Lemma Phased_render_pose b b' g :
  Phased.Ballerina.position b' = Phased.Ballerina.position b ->
  Phased.Ballerina.scale b' = Phased.Ballerina.scale b ->
  Phased.Ballerina.legRotation b' = Phased.Ballerina.legRotation b ->
  Phased.Ballerina.render b' g = Phased.Ballerina.render b g.
Proof.
  destruct b, b'; cbn [Phased.Ballerina.position Phased.Ballerina.scale
                       Phased.Ballerina.legRotation].
  intros -> -> ->; reflexivity.
Qed.

Lemma Phased_onclick_spec w :
  exists w', Phased.onclick w = Ok tt w'
    /\ Phased.ballerina w' = Phased.ballerina w.
Proof.
  destruct w as [g d pt rf af st b rn rq]; destruct af;
    (eexists; split; reflexivity).
Qed.

Lemma Phased_handle_frame ts w :
  Phased.handle (Phased.Frame ts) w
  = match Phased.requested w with
    | O => Ok tt w
    | S k => Phased.render ts w{{ Phased.requested := k }}
    end.
Proof.
  destruct (Phased.requested w) eqn:E; cbn; unfold bind, get; rewrite E;
    reflexivity.
Qed.

Lemma Phased_after_frame_invariant ts w g :
  Phased_invariant w -> Phased_invariant (Phased.after_frame ts w g).
Proof.
  intros (Hp & Hs & Hl); unfold Phased_invariant.
  cbn [Phased.after_frame Phased.ballerina].
  destruct (Phased_update_keeps (Phased.frame_dt ts w) (Phased.ballerina w))
    as (Ep & Es & El).
  rewrite Ep, Es, El; auto.
Qed.

Lemma Phased_handle_invariant e w w' :
  Phased.handle e w = Ok tt w' -> Phased_invariant w -> Phased_invariant w'.
Proof.
  intros H Hw; destruct e as [|ts].
  - destruct (Phased_onclick_spec w) as (w1 & E & Hb).
    cbn [Phased.handle] in H; rewrite E in H; injection H as <-.
    unfold Phased_invariant; rewrite Hb; exact Hw.
  - rewrite Phased_handle_frame in H.
    destruct (Phased.requested w) as [|k] eqn:Ek.
    + injection H as <-; exact Hw.
    + apply Phased_render_inv in H; destruct H as (g' & ->).
      apply Phased_after_frame_invariant.
      destruct w; exact Hw.
Qed.

Lemma Phased_events_invariant es w w' :
  forEach Phased.handle es w = Ok tt w' ->
  Phased_invariant w -> Phased_invariant w'.
Proof.
  revert w; induction es as [|e es IH]; intros w H Hw; cbn [forEach] in H.
  - injection H as <-; exact Hw.
  - destruct (bind_inv H) as ([] & w1 & H1 & H2).
    eauto using Phased_handle_invariant.
Qed.

Lemma Phased_liftG_inv {A} (p : M Gfx A) w a w' :
  Phased.liftG p w = Ok a w' -> Phased.ballerina w' = Phased.ballerina w.
Proof.
  unfold Phased.liftG; destruct (p (Phased.gfx w)) as [a' g'|e];
    [ | discriminate ].
  intros H; injection H as _ <-; destruct w; reflexivity.
Qed.

Lemma Phased_init_spec w :
  working = true ->
  exists ga g',
    Phased.init w = Ok tt (Phased.after_frame 0 w{{ Phased.gfx := ga }} g').
Proof.
  intros Hb; destruct (working_true Hb) as (H1 & H2 & H3).
  destruct w as [g d pt rf af st b rn rq]; open_state g.
  unfold Phased.init, Phased.setupWebGL, Phased.setOnclick;
    rewrite H1, H2, H3.
  cbv -[Qplus Qmult Qminus Qopp Qdiv Qinv Qmax
        Nat.add Nat.mul length fst snd
        MV.mat4 MV.translate MV.rotate MV.scale MV.mult
        MV.mult_vec MV.lookAt MV.ortho MV.inverseTranspose
        sin cos random Phased.render Phased.after_frame].
  match goal with
  | |- context [Phased.render 0 ?w] =>
      destruct (Phased_render_spec 0 w) as (g' & E & _); rewrite E
  end.
  do 2 eexists; reflexivity.
Qed.

Lemma Phased_init_fails w :
  working = false -> Phased.init w = Throw TypeError.
Proof.
  destruct w as [g d pt rf af st b rn rq]; open_state g.
  unfold working, Phased.init, Phased.setupWebGL, Phased.setOnclick.
  destruct webgl, gl_canvas, animToggleButton; cbn [andb]; intros H;
    try discriminate H; reflexivity.
Qed.

Lemma Phased_init_inv w w' :
  Phased.init w = Ok tt w' ->
  exists ga g', w' = Phased.after_frame 0 w{{ Phased.gfx := ga }} g'.
Proof.
  intros H; destruct working eqn:Hb.
  - destruct (Phased_init_spec w Hb) as (ga & g' & E).
    rewrite E in H; injection H as <-.
    exists ga, g'; reflexivity.
  - rewrite (Phased_init_fails w Hb) in H; discriminate H.
Qed.

Lemma Phased_init_invariant w w' :
  Phased.init w = Ok tt w' -> Phased_invariant w -> Phased_invariant w'.
Proof.
  intros H Hw.
  apply Phased_init_inv in H; destruct H as (ga & g' & ->).
  apply Phased_after_frame_invariant.
  destruct w; exact Hw.
Qed.

Lemma Phased_session_inv es w0 w :
  Phased.session es w0 = Ok tt w ->
  exists w1, Phased.init w0 = Ok tt w1
             /\ forEach Phased.handle es w1 = Ok tt w.
Proof.
  unfold Phased.session; intros H.
  apply bind_inv in H; destruct H as ([] & w1 & H0 & H1); eauto.
Qed.

Lemma Phased_loaded_invariant : Phased_invariant Phased.loaded.
Proof. repeat split. Qed.

(** C10. On every page of the variant that the events can lead to,
    [legRotation] is 0, as the constructor set it, and [render] does to the
    renderer what it does for the ballerina as constructed: the same
    draws, whatever the time and the phase. *)
Theorem legRotation_stays_zero (w : Phased.World) :
  Phased.reachable w ->
  Phased.Ballerina.legRotation (Phased.ballerina w) = 0
  /\ forall g,
       Phased.Ballerina.render (Phased.ballerina w) g
       = Phased.Ballerina.render
           (Phased.Ballerina.constructor (vec3 0 0 0) 1) g.
Proof.
  intros [es H].
  apply Phased_session_inv in H; destruct H as (w1 & H0 & H1).
  assert (Hw : Phased_invariant w).
  { apply (Phased_events_invariant es w1 w H1).
    apply (Phased_init_invariant Phased.loaded w1 H0).
    exact Phased_loaded_invariant. }
  destruct Hw as (Hp & Hs & Hl); split; [exact Hl | ].
  intros g; apply Phased_render_pose; assumption.
Qed.

Lemma Phased_liftG_animFlag {A} (p : M Gfx A) w a w' :
  Phased.liftG p w = Ok a w' -> Phased.animFlag w' = Phased.animFlag w.
Proof.
  unfold Phased.liftG; destruct (p (Phased.gfx w)) as [a' g'|e];
    [ | discriminate ].
  intros H; injection H as _ <-; destruct w; reflexivity.
Qed.

Lemma Phased_render_paused t1 t2 w :
  Phased.animFlag w = false -> Phased.render t1 w = Phased.render t2 w.
Proof.
  intros Hoff; unfold Phased.render.
  apply bind_ext; intros [] w1 H1.
  apply Phased_liftG_animFlag in H1; rewrite Hoff in H1.
  apply bind_ext; intros w2 w3 H2; unfold get in H2; injection H2 as <- <-.
  rewrite H1; reflexivity.
Qed.

(** With a time step of 0 the ballerina of the variant keeps its time and
    its phase, provided its time is at most 2, as it is after every
    [update]. *)
Lemma Phased_update_still dt b :
  dt == 0 -> Phased.Ballerina.time b <= 2 ->
  Phased.Ballerina.time (Phased.Ballerina.update dt b)
    == Phased.Ballerina.time b
  /\ Phased.Ballerina.phase (Phased.Ballerina.update dt b)
     = Phased.Ballerina.phase b.
Proof.
  destruct b as [p s t ph lr]; unfold Phased.Ballerina.update.
  cbv [apply_update constant Phased.Ballerina.time Phased.Ballerina.phase].
  intros Hdt Ht; assert (E : t + dt == t) by (rewrite Hdt; ring).
  compare_cases; [exfalso; lra | split; [exact E | reflexivity]].
Qed.

Lemma Phased_update_time_bound dt b :
  Phased.Ballerina.time (Phased.Ballerina.update dt b) <= 2.
Proof.
  destruct b as [p s t ph lr]; unfold Phased.Ballerina.update.
  cbv [apply_update constant Phased.Ballerina.time].
  compare_cases; cbn; lra.
Qed.

(** A frame of the variant with the toggle off. *)
Lemma Phased_paused_frame (w : Phased.World) (t1 t2 : Q) :
  Phased.animFlag w = false ->
  Phased.render t1 w = Phased.render t2 w
  /\ forall w', Phased.render t1 w = Ok tt w' ->
       Phased.dt w' = Phased.dt w /\ Phased.prevTime w' = Phased.prevTime w
       /\ (Phased.dt w == 0 -> Forall within_bounds (Phased.stars w) ->
           Phased.Ballerina.time (Phased.ballerina w) <= 2 ->
           Phased.Ballerina.time (Phased.ballerina w')
             == Phased.Ballerina.time (Phased.ballerina w)
           /\ Phased.Ballerina.phase (Phased.ballerina w')
              = Phased.Ballerina.phase (Phased.ballerina w)
           /\ Forall2 same_place (Phased.stars w) (Phased.stars w')).
Proof.
  intros Hoff; split; [apply Phased_render_paused; exact Hoff | ].
  intros w' H; apply Phased_render_inv in H; destruct H as (g' & ->).
  unfold Phased.after_frame, Phased.frame_dt; rewrite Hoff.
  cbn [Phased.dt Phased.prevTime Phased.ballerina Phased.stars].
  split; [reflexivity | split; [reflexivity | ]].
  intros Hdt Hst Ht.
  destruct (Phased_update_still (Phased.dt w) (Phased.ballerina w) Hdt Ht).
  repeat split; try assumption.
  apply updateAll_still; assumption.
Qed.

End PhasedFacts.

(** ** Frames with the animation switched off *)

Section PausedFrames.
Context {math : JsMath} {mv : MV.Lib} {browser : Browser}.

(** C4, as the code has it. With the toggle off, [render] (of either
    variant) leaves [dt] and [prevTime] as they are and does not depend on
    the timestamp: called on the same page with two timestamps it gives
    the same result.  When the [dt] it finds is 0, and no star is beyond
    10 (and, in the variant, the time of the ballerina is at most 2), the
    frame leaves the time (and phase) of the ballerina and the place of
    every star as they were. *)
Theorem paused_frame_ignores_timestamp
    (w : Main.World) (v : Phased.World) (t1 t2 : Q) :
  Main.animFlag w = false -> Phased.animFlag v = false ->
  (Main.render t1 w = Main.render t2 w
   /\ forall w', Main.render t1 w = Ok tt w' ->
        Main.dt w' = Main.dt w /\ Main.prevTime w' = Main.prevTime w
        /\ (Main.dt w == 0 -> Forall within_bounds (Main.stars w) ->
            Main.Ballerina.time (Main.ballerina w')
              == Main.Ballerina.time (Main.ballerina w)
            /\ Forall2 same_place (Main.stars w) (Main.stars w')))
  /\ (Phased.render t1 v = Phased.render t2 v
      /\ forall v', Phased.render t1 v = Ok tt v' ->
           Phased.dt v' = Phased.dt v
           /\ Phased.prevTime v' = Phased.prevTime v
           /\ (Phased.dt v == 0 -> Forall within_bounds (Phased.stars v) ->
               Phased.Ballerina.time (Phased.ballerina v) <= 2 ->
               Phased.Ballerina.time (Phased.ballerina v')
                 == Phased.Ballerina.time (Phased.ballerina v)
               /\ Phased.Ballerina.phase (Phased.ballerina v')
                  = Phased.Ballerina.phase (Phased.ballerina v)
               /\ Forall2 same_place (Phased.stars v) (Phased.stars v'))).
Proof.
  intros Hw Hv; split;
    [apply Main_paused_frame; exact Hw | apply Phased_paused_frame; exact Hv].
Qed.

End PausedFrames.

Lemma paused_frame_witness :
  Main.animFlag Inputs.booted = false
  /\ Phased.animFlag Inputs.phased_booted = false
  /\ Main.render (math := Sym.math) 16 Inputs.booted
     = Main.render (math := Sym.math) 32 Inputs.booted
  /\ Phased.render (math := Sym.math) 16 Inputs.phased_booted
     = Phased.render (math := Sym.math) 32 Inputs.phased_booted.
Proof.
  assert (Hw : Main.animFlag Inputs.booted = false)
    by (vm_compute; reflexivity).
  assert (Hv : Phased.animFlag Inputs.phased_booted = false)
    by (vm_compute; reflexivity).
  split; [exact Hw | split; [exact Hv | ]].
  destruct (paused_frame_ignores_timestamp (math := Sym.math)
              Inputs.booted Inputs.phased_booted 16 32 Hw Hv)
    as [[Hm _] [Hp _]].
  split; [exact Hm | exact Hp].
Defined.

Lemma legRotation_stays_zero_witness :
  Phased.reachable (math := Sym.math) (browser := Sym.browser) Inputs.phased_running
  /\ Phased.Ballerina.phase (Phased.ballerina Inputs.phased_running) = 1%Z
  /\ Phased.Ballerina.legRotation (Phased.ballerina Inputs.phased_running)
     = 0.
Proof.
  assert (H : Phased.reachable (math := Sym.math) (browser := Sym.browser) Inputs.phased_running).
  { exists [Phased.Click; Phased.Frame 1000; Phased.Frame 2000;
            Phased.Frame 3000].
    vm_compute; reflexivity. }
  split; [exact H | ].
  split; [vm_compute; reflexivity | ].
  apply (legRotation_stays_zero (math := Sym.math) Inputs.phased_running H).
Defined.

(** * Further properties *)

(** The random source of [Sym] is a random source. *)
Lemma Sym_random_in_unit : random_in_unit (math := Sym.math).
Proof.
  intros k; unfold unit_draw; cbn [random Sym.math].
  pose proof (Nat.mod_upper_bound (k * 7 + 3) 16 ltac:(discriminate)) as H.
  unfold Qle, Qlt; cbn [Qnum Qden]; split; lia.
Qed.

(** ** Pages that the events lead to *)

Section MainSessions.
Context {math : JsMath} {mv : MV.Lib} {browser : Browser}.

(** Induction on the events: what holds after [window.onload], and is kept
    by the button and by every frame, holds of every page. *)
Lemma Main_reachable_induction (P : Main.World -> Prop) :
  (forall ga g', P (Main.after_frame 0 Main.loaded{{ Main.gfx := ga }} g')) ->
  (forall w w', P w -> Main.onclick w = Ok tt w' -> P w') ->
  (forall w k ts g',
      P w -> Main.requested w = S k ->
      P (Main.after_frame ts w{{ Main.requested := k }} g')) ->
  forall w, Main.reachable w -> P w.
Proof.
  intros Hinit Hclick Hframe w [es H].
  apply Main_session_inv in H; destruct H as (w1 & H0 & H1).
  apply Main_init_inv in H0; destruct H0 as (ga & g' & -> & _).
  remember (Main.after_frame 0 Main.loaded{{ Main.gfx := ga }} g') as w0
    eqn:E.
  assert (H0 : P w0) by (subst w0; apply Hinit).
  clear E; revert w0 H0 H1.
  induction es as [|e es IH]; intros w0 H0 H1; cbn [forEach] in H1.
  - injection H1 as <-; exact H0.
  - apply bind_inv in H1; destruct H1 as ([] & w2 & He & H2).
    apply (IH w2); [ | exact H2].
    destruct e as [|ts].
    + exact (Hclick w0 w2 H0 He).
    + rewrite Main_handle_frame in He.
      destruct (Main.requested w0) as [|k] eqn:Ek.
      * injection He as <-; exact H0.
      * apply Main_render_inv in He; destruct He as (g2 & -> & _).
        apply Hframe; assumption.
Qed.

Lemma Main_set_requested (w : Main.World) k :
  Main.stars w{{ Main.requested := k }} = Main.stars w
  /\ Main.ballerina w{{ Main.requested := k }} = Main.ballerina w
  /\ Main.randoms w{{ Main.requested := k }} = Main.randoms w
  /\ Main.animFlag w{{ Main.requested := k }} = Main.animFlag w
  /\ Main.dt w{{ Main.requested := k }} = Main.dt w
  /\ Main.prevTime w{{ Main.requested := k }} = Main.prevTime w
  /\ Main.cameraAngle w{{ Main.requested := k }} = Main.cameraAngle w
  /\ Main.requested w{{ Main.requested := k }} = k.
Proof. destruct w; repeat split. Qed.

Lemma updateAll_same_make dt l n :
  Forall2 same_make l (fst (Star.updateAll dt l n)).
Proof.
  revert n; induction l as [|s l IH]; intros n; cbn [Star.updateAll].
  - constructor.
  - assert (H1 : same_make s (fst (Star.update dt s n))).
    { destruct s as [x y v sc].
      cbv [Star.update apply_update constant Star.x Star.y Star.velocity
           Star.scale same_make].
      destruct (gtb _ 10 || gtb _ 10); [destruct (ltb _ _) | ];
        split; reflexivity. }
    destruct (Star.update dt s n) as [s' n1].
    specialize (IH n1); destruct (Star.updateAll dt l n1); cbn in *.
    constructor; assumption.
Qed.

Lemma Forall2_same_make_trans l1 l2 l3 :
  Forall2 same_make l1 l2 -> Forall2 same_make l2 l3 ->
  Forall2 same_make l1 l3.
Proof.
  intros H; revert l3; induction H as [|a b l1 l2 [Hv Hs] H IH];
    intros l3 H3; inversion H3 as [|? c ? l3' [Hv' Hs'] H3']; subst;
    constructor; [ split; congruence | auto ].
Qed.

Lemma Forall2_same_make_refl l : Forall2 same_make l l.
Proof. induction l; constructor; [split; reflexivity | assumption]. Qed.

Lemma Main_reachable_same_make w :
  Main.reachable w ->
  Forall2 same_make (Main.stars Main.loaded) (Main.stars w).
Proof.
  revert w; apply Main_reachable_induction.
  - intros ga g'; cbn [Main.after_frame Main.stars].
    rewrite Main_stars_set_gfx; apply updateAll_same_make.
  - intros w w' H Hc.
    destruct (Main_onclick_spec w) as (w1 & E & _ & Hst & _).
    rewrite E in Hc; injection Hc as <-; rewrite Hst; exact H.
  - intros w k ts g' H _; cbn [Main.after_frame Main.stars].
    destruct (Main_set_requested w k) as (-> & _ & -> & _).
    eapply Forall2_same_make_trans; [exact H | apply updateAll_same_make].
Qed.

(** X1. The stars of every page are the 50 stars that the script created,
    each with the velocity and the scale it was created with: no frame
    and no respawn at an edge changes them. *)
Theorem stars_keep_their_make (w : Main.World) :
  Main.reachable w ->
  Forall2 same_make (Main.stars Main.loaded) (Main.stars w)
  /\ length (Main.stars w) = 50%nat.
Proof.
  intros Hw; pose proof (Main_reachable_same_make w Hw) as H.
  split; [exact H | ].
  rewrite <- (Forall2_length H); apply Main_loaded_stars.
Qed.

Lemma create_in_ranges k n :
  random_in_unit -> Forall star_in_ranges (fst (Star.create k n)).
Proof.
  intros H; revert n; induction k as [|k IH]; intros n; cbn [Star.create].
  - constructor.
  - assert (H1 : star_in_ranges (fst (Star.constructor n))).
    { destruct (H (n + 2)%nat) as [? ?]; destruct (H (n + 3)%nat) as [? ?].
      cbv [Star.constructor Star.reset apply_update constant Star.x Star.y
           Star.velocity Star.scale fst star_in_ranges].
      repeat split; lra. }
    destruct (Star.constructor n) as [s n1].
    specialize (IH n1); destruct (Star.create k n1); cbn in *.
    constructor; assumption.
Qed.

Lemma same_make_in_ranges l l' :
  Forall2 same_make l l' -> Forall star_in_ranges l ->
  Forall star_in_ranges l'.
Proof.
  induction 1 as [|s s' l l' [Hv Hs] H IH]; intros Hl;
    inversion Hl as [|? ? Hr Hl']; subst; constructor; auto.
  unfold star_in_ranges in *; rewrite Hv, Hs; exact Hr.
Qed.

(** X2. As long as [Math.random()] returns numbers in [0, 1), every star
    of every page has x and y at most 10, its velocity in [0.5, 0.7] and
    its scale in [0.02, 0.05]. *)
Theorem stars_stay_in_ranges (w : Main.World) :
  random_in_unit -> Main.reachable w ->
  Forall within_bounds (Main.stars w)
  /\ Forall star_in_ranges (Main.stars w).
Proof.
  intros Hr Hw; split; [apply Main_reachable_within_bounds; assumption | ].
  apply (same_make_in_ranges (Main.stars Main.loaded));
    [apply Main_reachable_same_make; exact Hw | ].
  unfold Main.loaded; cbn [Main.stars]; apply create_in_ranges; exact Hr.
Qed.

Lemma Main_update_stands dt b :
  Main_ballerina_stands b ->
  Main_ballerina_stands (Main.Ballerina.update dt b).
Proof.
  destruct b as [p bp sc t ra rs]; unfold Main_ballerina_stands.
  cbv [Main.Ballerina.update apply_update constant Main.Ballerina.position
       Main.Ballerina.basePosition Main.Ballerina.scale
       Main.Ballerina.rotationSpeed Main.Ballerina.rotationAngle
       Main.Ballerina.time].
  intros (-> & -> & -> & -> & Hra); repeat split; rewrite Hra; ring.
Qed.

(** X3. On every page of [main.js] the ballerina stands where the script
    put it: its position is the origin, its scale 1 and its rotation angle
    -35, for [update] adds [360 * dt * 0] to the angle. *)
Theorem ballerina_never_turns (w : Main.World) :
  Main.reachable w -> Main_ballerina_stands (Main.ballerina w).
Proof.
  revert w; apply Main_reachable_induction.
  - intros ga g'; cbn [Main.after_frame Main.ballerina].
    apply Main_update_stands.
    repeat split; reflexivity.
  - intros w w' H Hc.
    destruct (Main_onclick_spec w) as (w1 & E & _ & _ & Hb & _).
    rewrite E in Hc; injection Hc as <-; rewrite Hb; exact H.
  - intros w k ts g' H _; cbn [Main.after_frame Main.ballerina].
    apply Main_update_stands.
    destruct (Main_set_requested w k) as (_ & -> & _); exact H.
Qed.

(** What a click and a frame callback do to the flags, the clock and the
    queue of requested frames. *)
Lemma Main_click_step w :
  exists w', Main.onclick w = Ok tt w'
    /\ Main.animFlag w' = negb (Main.animFlag w)
    /\ Main.requested w'
       = (if Main.animFlag w then Main.requested w
          else S (Main.requested w))
    /\ Main.dt w' = Main.dt w /\ Main.prevTime w' = Main.prevTime w.
Proof.
  destruct w as [g d pt rf af st b ca rn rq]; destruct af;
    (eexists; split; [reflexivity | repeat split]).
Qed.

Lemma Main_frame_step ts w :
  exists w', Main.handle (Main.Frame ts) w = Ok tt w'
    /\ Main.animFlag w' = Main.animFlag w
    /\ Main.requested w'
       = (if Main.animFlag w then Main.requested w
          else pred (Main.requested w))
    /\ (Main.requested w = 0%nat -> w' = w)
    /\ (Main.requested w <> 0%nat ->
        Main.dt w' = Main.frame_dt ts w
        /\ Main.prevTime w'
           = (if Main.animFlag w then ts else Main.prevTime w)
        /\ Main.Ballerina.time (Main.ballerina w')
           = Main.Ballerina.time (Main.ballerina w) + Main.frame_dt ts w
        /\ Main.cameraAngle w'
           = Main.cameraAngle w + Main.frame_dt ts w * 0.5).
Proof.
  rewrite Main_handle_frame.
  destruct (Main.requested w) as [|k] eqn:Ek.
  - exists w; split; [reflexivity | ].
    rewrite Ek; destruct (Main.animFlag w); repeat split; congruence.
  - destruct (Main_render_spec ts w{{ Main.requested := k }}) as (g' & E & _).
    eexists; split; [exact E | ].
    destruct w as [g d pt rf af st b ca rn rq].
    cbn [Main.requested] in Ek; subst rq.
    destruct af; repeat split; intros; discriminate.
Qed.

(** X4. [window.onload] of [main.js] throws a [TypeError] when the
    canvas, the WebGL context or the button is missing, whatever the
    globals are, and no event follows.  In a page that has all three no
    event sequence makes the script throw: [window.onload] followed by any
    clicks and frame callbacks returns normally, from every state of the
    globals. *)
Theorem session_throws_only_at_setup
    (es : list Main.Event) (w0 : Main.World) :
  if working
  then exists w, Main.session es w0 = Ok tt w
  else Main.session es w0 = Throw TypeError.
Proof.
  destruct working eqn:Hb.
  - unfold Main.session.
    destruct (Main_init_spec w0 Hb) as (ga & g' & E & _).
    rewrite (bind_Ok _ E).
    generalize (Main.after_frame 0 w0{{ Main.gfx := ga }} g'); clear E.
    induction es as [|e es IH]; intros w; cbn [forEach].
    + exists w; reflexivity.
    + assert (H : exists w1, Main.handle e w = Ok tt w1).
      { destruct e as [|ts].
        - destruct (Main_click_step w) as (w1 & E & _); eauto.
        - destruct (Main_frame_step ts w) as (w1 & E & _); eauto. }
      destruct H as (w1 & E); rewrite (bind_Ok _ E); apply IH.
  - unfold Main.session, bind; rewrite (Main_init_fails w0 Hb); reflexivity.
Qed.

Lemma Main_frames_while_on tss : forall w,
  Main.animFlag w = true ->
  exists w', forEach Main.handle (map Main.Frame tss) w = Ok tt w'
    /\ Main.animFlag w' = true
    /\ Main.requested w' = Main.requested w.
Proof.
  induction tss as [|ts tss IH]; intros w Hon; cbn [map forEach].
  - exists w; auto.
  - destruct (Main_frame_step ts w) as (w1 & E & Ha & Hr & _).
    rewrite Hon in Ha, Hr.
    destruct (IH w1 Ha) as (w' & E' & Ha' & Hr').
    exists w'; rewrite (bind_Ok _ E); repeat split; congruence.
Qed.

(** X5. Switching the animation off and on again while it runs starts a
    second loop of frame callbacks: after the two clicks one more callback
    is requested than before, and it stays so through all the frames that
    follow, since each callback requests exactly one. *)
Theorem toggling_twice_adds_a_frame_loop (w : Main.World) (tss : list Q) :
  Main.animFlag w = true ->
  exists w',
    forEach Main.handle (Main.Click :: Main.Click :: map Main.Frame tss) w
    = Ok tt w'
    /\ Main.animFlag w' = true
    /\ Main.requested w' = S (Main.requested w).
Proof.
  intros Hon; cbn [forEach Main.handle].
  destruct (Main_click_step w) as (w1 & E1 & Ha1 & Hr1 & _).
  rewrite Hon in Ha1, Hr1; cbn [negb] in Ha1.
  destruct (Main_click_step w1) as (w2 & E2 & Ha2 & Hr2 & _).
  rewrite Ha1 in Ha2, Hr2; cbn [negb] in Ha2.
  destruct (Main_frames_while_on tss w2 Ha2) as (w' & E & Ha & Hr).
  exists w'; rewrite (bind_Ok _ E1), (bind_Ok _ E2).
  repeat split; congruence.
Qed.

(** X6. With the animation switched off the loop comes to rest: once as
    many frames have passed as callbacks were requested, none is requested
    any more, and a further frame leaves the page exactly as it is. *)
Theorem paused_page_comes_to_rest (w : Main.World) (tss : list Q) :
  Main.animFlag w = false ->
  (Main.requested w <= length tss)%nat ->
  exists w',
    forEach Main.handle (map Main.Frame tss) w = Ok tt w'
    /\ Main.animFlag w' = false
    /\ Main.requested w' = 0%nat
    /\ forall ts, Main.handle (Main.Frame ts) w' = Ok tt w'.
Proof.
  revert w; induction tss as [|ts tss IH]; intros w Hoff Hle;
    cbn [map forEach length] in *.
  - exists w; repeat split; [exact Hoff | lia | ].
    intros ts; rewrite Main_handle_frame.
    replace (Main.requested w) with 0%nat by lia; reflexivity.
  - destruct (Main_frame_step ts w) as (w1 & E & Ha & Hr & _).
    rewrite Hoff in Ha, Hr.
    destruct (IH w1 Ha ltac:(lia)) as (w' & E' & H').
    exists w'; rewrite (bind_Ok _ E); split; [exact E' | exact H'].
Qed.

(** X7. While the animation runs, the time step of a frame is the time
    since the frame before it, in seconds: after callbacks at [t1] and
    [t2] the step is [(t2 - t1) / 1000], and the clock of the ballerina
    and the angle of the camera have advanced by the steps of both. *)
Theorem consecutive_frames_dt (w : Main.World) (t1 t2 : Q) :
  Main.animFlag w = true -> Main.requested w <> 0%nat ->
  exists w',
    forEach Main.handle [Main.Frame t1; Main.Frame t2] w = Ok tt w'
    /\ Main.dt w' = (t2 - t1) / 1000
    /\ Main.prevTime w' = t2
    /\ Main.Ballerina.time (Main.ballerina w')
       = Main.Ballerina.time (Main.ballerina w)
         + (t1 - Main.prevTime w) / 1000 + (t2 - t1) / 1000
    /\ Main.cameraAngle w'
       = Main.cameraAngle w + (t1 - Main.prevTime w) / 1000 * 0.5
         + (t2 - t1) / 1000 * 0.5.
Proof.
  intros Hon Hrq; cbn [forEach].
  destruct (Main_frame_step t1 w) as (w1 & E1 & Ha1 & Hr1 & _ & H1).
  destruct (H1 Hrq) as (Hd1 & Hp1 & Ht1 & Hc1).
  rewrite Hon in Ha1, Hr1, Hp1.
  destruct (Main_frame_step t2 w1) as (w2 & E2 & Ha2 & Hr2 & _ & H2).
  destruct (H2 ltac:(congruence)) as (Hd2 & Hp2 & Ht2 & Hc2).
  rewrite Ha1 in Hp2.
  exists w2; rewrite (bind_Ok _ E1), (bind_Ok _ E2).
  unfold Main.frame_dt in *; rewrite Ha1, Hp1 in *; rewrite Hon in *.
  split; [reflexivity | ].
  repeat split; congruence.
Qed.

End MainSessions.

(** ** Pages of the three-phase variant *)

Section PhasedSessions.
Context {math : JsMath} {mv : MV.Lib} {browser : Browser}.

Lemma Phased_reachable_induction (P : Phased.World -> Prop) :
  (forall ga g',
      P (Phased.after_frame 0 Phased.loaded{{ Phased.gfx := ga }} g')) ->
  (forall w w', P w -> Phased.onclick w = Ok tt w' -> P w') ->
  (forall w k ts g',
      P w -> Phased.requested w = S k ->
      P (Phased.after_frame ts w{{ Phased.requested := k }} g')) ->
  forall w, Phased.reachable w -> P w.
Proof.
  intros Hinit Hclick Hframe w [es H].
  apply Phased_session_inv in H; destruct H as (w1 & H0 & H1).
  apply Phased_init_inv in H0; destruct H0 as (ga & g' & ->).
  remember (Phased.after_frame 0 Phased.loaded{{ Phased.gfx := ga }} g')
    as w0 eqn:E0.
  assert (H0 : P w0) by (subst w0; apply Hinit).
  clear E0; revert w0 H0 H1.
  induction es as [|e es IH]; intros w0 H0 H1; cbn [forEach] in H1.
  - injection H1 as <-; exact H0.
  - apply bind_inv in H1; destruct H1 as ([] & w2 & He & H2).
    apply (IH w2); [ | exact H2].
    destruct e as [|ts].
    + exact (Hclick w0 w2 H0 He).
    + rewrite Phased_handle_frame in He.
      destruct (Phased.requested w0) as [|k] eqn:Ek.
      * injection He as <-; exact H0.
      * apply Phased_render_inv in He; destruct He as (g2 & ->).
        apply Hframe; assumption.
Qed.

Lemma Phased_set_requested (w : Phased.World) k :
  Phased.stars w{{ Phased.requested := k }} = Phased.stars w
  /\ Phased.ballerina w{{ Phased.requested := k }} = Phased.ballerina w
  /\ Phased.randoms w{{ Phased.requested := k }} = Phased.randoms w.
Proof. destruct w; repeat split. Qed.

Lemma Phased_set_gfx (w : Phased.World) g :
  Phased.stars w{{ Phased.gfx := g }} = Phased.stars w
  /\ Phased.ballerina w{{ Phased.gfx := g }} = Phased.ballerina w
  /\ Phased.randoms w{{ Phased.gfx := g }} = Phased.randoms w.
Proof. destruct w; repeat split. Qed.

Lemma Phased_update_clock dt b :
  (0 <= Phased.Ballerina.phase b < 3)%Z ->
  Phased_clock_in_range (Phased.Ballerina.update dt b).
Proof.
  intros Hp; split; [ | apply Phased_update_time_bound].
  destruct b as [p s t ph lr]; unfold Phased.Ballerina.update.
  cbv [apply_update constant Phased.Ballerina.time Phased.Ballerina.phase]
    in *.
  destruct (gtb (t + dt) 2); cbn [Phased.Ballerina.phase];
    [apply Z.mod_pos_bound; lia | exact Hp].
Qed.

(** X8. On every page of the three-phase variant the phase of the
    ballerina is 0, 1 or 2 and its clock is at most 2 seconds, however
    long the time steps of the frames were. *)
Theorem phase_stays_in_range (w : Phased.World) :
  Phased.reachable w -> Phased_clock_in_range (Phased.ballerina w).
Proof.
  revert w; apply Phased_reachable_induction.
  - intros ga g'; cbn [Phased.after_frame Phased.ballerina].
    apply Phased_update_clock.
    destruct (Phased_set_gfx Phased.loaded ga) as (_ & -> & _).
    cbn; lia.
  - intros w w' H Hc.
    destruct (Phased_onclick_spec w) as (w1 & E & Hb).
    rewrite E in Hc; injection Hc as <-; rewrite Hb; exact H.
  - intros w k ts g' [H _] _; cbn [Phased.after_frame Phased.ballerina].
    apply Phased_update_clock.
    destruct (Phased_set_requested w k) as (_ & -> & _); exact H.
Qed.

(** X9. Walk, pirouette, split jump and walk again: three updates that
    each carry the clock past 2 seconds bring the ballerina of the variant
    back to the phase it was in, with its clock at 0. *)
Theorem three_advances_return (b : Phased.Ballerina.t) (d1 d2 d3 : Q) :
  (0 <= Phased.Ballerina.phase b < 3)%Z ->
  2 < Phased.Ballerina.time b + d1 -> 2 < d2 -> 2 < d3 ->
  Phased.Ballerina.phase
    (Phased.Ballerina.update d3
       (Phased.Ballerina.update d2 (Phased.Ballerina.update d1 b)))
  = Phased.Ballerina.phase b
  /\ Phased.Ballerina.time
       (Phased.Ballerina.update d3
          (Phased.Ballerina.update d2 (Phased.Ballerina.update d1 b)))
     = 0.
Proof.
  intros Hp H1 H2 H3; destruct b as [p s t ph lr].
  cbn [Phased.Ballerina.phase Phased.Ballerina.time] in *.
  assert (E1 : gtb (t + d1) 2 = true) by (apply gtb_true; exact H1).
  assert (E2 : gtb (0 + d2) 2 = true) by (apply gtb_true; lra).
  assert (E3 : gtb (0 + d3) 2 = true) by (apply gtb_true; lra).
  unfold Phased.Ballerina.update.
  cbv [apply_update constant Phased.Ballerina.time Phased.Ballerina.phase].
  rewrite E1; cbv [apply_update constant Phased.Ballerina.time
                   Phased.Ballerina.phase].
  rewrite E2; cbv [apply_update constant Phased.Ballerina.time
                   Phased.Ballerina.phase].
  rewrite E3; cbv [apply_update constant Phased.Ballerina.time
                   Phased.Ballerina.phase].
  split; [ | reflexivity].
  assert (Hc : (ph = 0 \/ ph = 1 \/ ph = 2)%Z) by lia.
  destruct Hc as [-> | [-> | ->]]; reflexivity.
Qed.

(** X10. The stars of the variant: on every page there are 50 of them,
    none beyond 10 in x or y, with velocities in [0.5, 0.7] and scales in
    [0.02, 0.05], as long as [Math.random()] returns numbers in [0, 1). *)
Theorem variant_stars_stay_in_ranges (w : Phased.World) :
  random_in_unit -> Phased.reachable w ->
  length (Phased.stars w) = 50%nat
  /\ Forall within_bounds (Phased.stars w)
  /\ Forall star_in_ranges (Phased.stars w).
Proof.
  intros Hr; revert w; apply Phased_reachable_induction.
  - intros ga g'; cbn [Phased.after_frame Phased.stars].
    destruct (Phased_set_gfx Phased.loaded ga) as (-> & _ & ->).
    split; [ | split].
    + rewrite updateAll_length; apply (create_length numStars).
    + apply updateAll_within_bounds; exact Hr.
    + eapply same_make_in_ranges; [apply updateAll_same_make | ].
      apply (create_in_ranges numStars); exact Hr.
  - intros w w' H Hc.
    assert (Hs : Phased.stars w' = Phased.stars w).
    { destruct w as [g d pt rf af st b rn rq]; destruct af;
        injection Hc as <-; reflexivity. }
    rewrite Hs; exact H.
  - intros w k ts g' (Hn & _ & Hg) _; cbn [Phased.after_frame Phased.stars].
    destruct (Phased_set_requested w k) as (-> & _ & ->).
    split; [ | split].
    + rewrite updateAll_length; exact Hn.
    + apply updateAll_within_bounds; exact Hr.
    + eapply same_make_in_ranges; [apply updateAll_same_make | exact Hg].
Qed.

End PhasedSessions.

(** ** What is drawn *)

Section DrawnCalls.
Context {math : JsMath} {mv : MV.Lib} {browser : Browser}.

(** A star is drawn as one sphere under the model matrix it finds, which
    it leaves in place. *)
Lemma Star_draw_spec colour s g m v :
  modelMatrix g = Some m -> viewMatrix g = Some v ->
  exists g', Star.draw colour s g = Ok tt g'
    /\ modelMatrix g' = Some m /\ viewMatrix g' = Some v
    /\ MS g' = MS g /\ eye g' = eye g
    /\ u_projectionMatrix (uniforms g') = u_projectionMatrix (uniforms g)
    /\ drawn g'
       = star_call colour (u_projectionMatrix (uniforms g))
           (contents v) (contents m) s :: drawn g.
Proof.
  intros Hm Hv; open_state g; destruct un.
  match goal with |- exists g', ?p ?g0 = _ /\ _ => run_on p g0 end.
  eexists; split; [reflexivity | ].
  cbn [modelMatrix viewMatrix MS eye uniforms drawn u_projectionMatrix].
  repeat split.
Qed.

Lemma Stars_draw_spec colour l : forall g m v,
  modelMatrix g = Some m -> viewMatrix g = Some v ->
  exists g', forEach (Star.draw colour) l g = Ok tt g'
    /\ modelMatrix g' = Some m /\ viewMatrix g' = Some v
    /\ MS g' = MS g /\ eye g' = eye g
    /\ u_projectionMatrix (uniforms g') = u_projectionMatrix (uniforms g)
    /\ drawn g'
       = rev (map (star_call colour (u_projectionMatrix (uniforms g))
                     (contents v) (contents m)) l) ++ drawn g.
Proof.
  induction l as [|s l IH]; intros g m v Hm Hv; cbn [forEach map rev].
  - exists g; repeat split; assumption.
  - destruct (Star_draw_spec colour s g m v Hm Hv)
      as (g1 & E1 & Hm1 & Hv1 & HS1 & He1 & Hu1 & Hd1).
    destruct (IH g1 m v Hm1 Hv1)
      as (g2 & E2 & Hm2 & Hv2 & HS2 & He2 & Hu2 & Hd2).
    exists g2; rewrite (bind_Ok _ E1).
    repeat split; try congruence.
    rewrite Hd2, Hd1, Hu1, <- app_assoc; reflexivity.
Qed.

(** X11. The stars are drawn as siblings: [forEach] of [draw] draws one
    sphere per star, in the order of the list, each placed by its own
    translation and scale under the model matrix found at the start, and
    it leaves that matrix and the stack as they were. *)
Theorem stars_are_drawn_as_siblings (colour : Vec4) (l : list Star.t)
    (g : Gfx) (m v : MatObj) :
  modelMatrix g = Some m -> viewMatrix g = Some v ->
  exists g', forEach (Star.draw colour) l g = Ok tt g'
    /\ modelMatrix g' = Some m /\ MS g' = MS g
    /\ rev (drawn g')
       = rev (drawn g)
         ++ map (star_call colour (u_projectionMatrix (uniforms g))
                   (contents v) (contents m)) l.
Proof.
  intros Hm Hv.
  destruct (Stars_draw_spec colour l g m v Hm Hv)
    as (g' & E & Hm' & _ & HS & _ & _ & Hd).
  exists g'; repeat split; try assumption.
  rewrite Hd, rev_app_distr, rev_involutive; reflexivity.
Qed.

(** X12. The legs of [main.js] are drawn as two chains of three cubes:
    each shin is placed under the matrix of its thigh and each boot under
    that of its shin, scalings included, and the right leg starts again
    from the matrix that the left leg started from. *)
Theorem legs_are_drawn_as_chains (b : Main.Ballerina.t) (g : Gfx)
    (m v : MatObj) :
  modelMatrix g = Some m -> viewMatrix g = Some v ->
  let skin := vec4 1 0.8 0.6 1 in
  let pink := vec4 1 0.71 0.76 1 in
  let proj := u_projectionMatrix (uniforms g) in
  let lt := leftThigh (contents m) b in
  let ls := shin lt b (vec3 (-15) 0 1) (- Main.Ballerina.kneeBendL b) in
  let rt := rightThigh (contents m) b in
  let rs := shin rt b (vec3 15 0 1) (- Main.Ballerina.kneeBendR b) in
  exists g', Main.Ballerina.drawLegs b g = Ok tt g'
    /\ modelMatrix g' = Some m /\ MS g' = MS g
    /\ drawn g'
       = rev [call Cube skin proj (contents v) lt;
              call Cube skin proj (contents v) ls;
              call Cube pink proj (contents v) (boot ls b);
              call Cube skin proj (contents v) rt;
              call Cube skin proj (contents v) rs;
              call Cube pink proj (contents v) (boot rs b)]
         ++ drawn g.
Proof.
  intros Hm Hv; open_state g; destruct un.
  match goal with |- exists g', ?p ?g0 = _ /\ _ => run_on p g0 end.
  eexists; split; [reflexivity | ].
  cbn [modelMatrix viewMatrix MS eye uniforms drawn u_projectionMatrix].
  repeat split.
Qed.

End DrawnCalls.

(** ** Frames in detail *)

Section FrameDetails.
Context {math : JsMath} {mv : MV.Lib} {browser : Browser}.

(** The first statements of [render]: the draws of the frame before are
    cleared, the model matrix is the identity, the eye is at (0, 0, 10)
    and the projection is uploaded. *)
Lemma beginFrame_detail at_ g :
  exists g', beginFrame at_ g = Ok tt g'
    /\ exists m v, modelMatrix g' = Some m /\ viewMatrix g' = Some v
    /\ contents m = MV.mat4
    /\ contents v = MV.lookAt (vec3 0 0 10) at_ up
    /\ MS g' = [] /\ eye g' = Some (vec3 0 0 10)
    /\ drawn g' = []
    /\ u_projectionMatrix (uniforms g')
       = Some (MV.ortho left right bottom ytop near far)
    /\ pushes g' = pushes g /\ pops g' = pops g.
Proof.
  open_state g; destruct un.
  match goal with |- exists g', ?p ?g0 = _ /\ _ => run_on p g0 end.
  eexists; split; [reflexivity | ].
  cbn [modelMatrix viewMatrix MS eye pushes pops drawn uniforms
       u_projectionMatrix].
  do 2 eexists; repeat split.
Qed.

Lemma Main_drawStars_detail l g m v e :
  modelMatrix g = Some m -> viewMatrix g = Some v -> eye g = Some e ->
  exists g', Main.drawStars l g = Ok tt g'
    /\ modelMatrix g' = Some m /\ viewMatrix g' = Some v
    /\ MS g' = MS g /\ eye g' = eye g
    /\ drawn g'
       = rev (map (star_call Main.starColour
                     (u_projectionMatrix (uniforms g)) (contents v)
                     (MV.mult (contents m)
                        (MV.translate (v0 e) (v1 e) (v2 e)))) l)
         ++ drawn g.
Proof.
  intros Hm Hv He; open_state g; destruct un.
  unfold Main.drawStars.
  match goal with
  | |- context [forEach ?f l] => set (loop := forEach f l)
  end.
  cbv -[Qplus Qmult Qminus Qopp Qdiv Qinv Qmax Nat.add Nat.mul length
        MV.mat4 MV.translate MV.rotate MV.scale MV.mult MV.mult_vec
        MV.lookAt MV.ortho MV.inverseTranspose sin cos random loop gPop
        rev map app star_call].
  match goal with
  | |- context [loop ?g] =>
      destruct (Stars_draw_spec Main.starColour l g _ _ eq_refl eq_refl)
        as (g1 & E1 & Hm1 & Hv1 & HS1 & He1 & Hu1 & Hd1)
  end.
  fold loop in E1; rewrite E1; open_state g1.
  eexists; split; [reflexivity | ].
  cbn [modelMatrix viewMatrix MS eye drawn uniforms u_projectionMatrix
       contents] in *.
  repeat split; exact Hd1.
Qed.

(** The primitives of the ballerina of [main.js], in the order in which
    [render] draws them: head, hair and bow, the two cones of the dress,
    the arms and the legs. *)
Lemma Main_Ballerina_render_prims b g m v :
  modelMatrix g = Some m -> viewMatrix g = Some v ->
  exists g', Main.Ballerina.render b g = Ok tt g'
    /\ modelMatrix g' = Some m /\ viewMatrix g' = Some v
    /\ MS g' = MS g /\ eye g' = eye g
    /\ projectionMatrix g' = projectionMatrix g
    /\ drawn g' = firstn 15 (drawn g') ++ drawn g
    /\ map prim (rev (firstn 15 (drawn g')))
       = [Sphere; Cone; Sphere; Sphere; Cube; Cone; Cone; Cube; Cube;
          Cube; Cube; Cube; Cube; Cube; Cube]
    /\ Forall (fully_lit (u_projectionMatrix (uniforms g)))
         (firstn 15 (drawn g')).
Proof.
  intros Hm Hv; open_state g; destruct un.
  match goal with |- exists g', ?p ?g0 = _ /\ _ => run_on p g0 end.
  eexists; split; [reflexivity | ].
  cbn [modelMatrix viewMatrix projectionMatrix MS eye drawn uniforms
       u_projectionMatrix firstn rev app map prim].
  repeat split.
  repeat (constructor; [do 2 eexists; reflexivity | ]); constructor.
Qed.

(** A frame of [main.js] in detail. *)
Lemma Main_render_detail ts w :
  exists g', Main.render ts w = Ok tt (Main.after_frame ts w g')
    /\ drawn g'
       = firstn 15 (drawn g')
         ++ rev (map (star_call Main.starColour
                        (Some (MV.ortho left right bottom ytop near far))
                        (MV.lookAt (vec3 0 0 10) Main.at_ up)
                        (MV.mult MV.mat4 (MV.translate 0 0 10)))
                   (fst (Star.updateAll (Main.frame_dt ts w) (Main.stars w)
                           (Main.randoms w))))
    /\ map prim (rev (firstn 15 (drawn g')))
       = [Sphere; Cone; Sphere; Sphere; Cube; Cone; Cone; Cube; Cube;
          Cube; Cube; Cube; Cube; Cube; Cube]
    /\ Forall (fully_lit (Some (MV.ortho left right bottom ytop near far)))
         (firstn 15 (drawn g'))
    /\ eye g'
       = Some (orbit (Main.cameraAngle w + Main.frame_dt ts w * 0.5))
    /\ exists m v p,
         modelMatrix g' = Some m /\ contents m = MV.mat4
         /\ viewMatrix g' = Some v
         /\ contents v
            = MV.lookAt
                (orbit (Main.cameraAngle w + Main.frame_dt ts w * 0.5))
                Main.at_ up
         /\ projectionMatrix g' = Some p
         /\ contents p = MV.ortho left right bottom ytop near far.
Proof.
  destruct w as [g d pt rf af st b ca rn rq].
  destruct (beginFrame_detail Main.at_ g)
    as (g1 & E1 & m1 & v1 & Hm1 & Hv1 & Hcm & Hcv & HS1 & He1 & Hd1 & Hu1
        & _).
  destruct m1 as [om cm]; destruct v1 as [ov cv]; cbn [contents] in *.
  subst cm cv.
  open_state g1; cbn [drawn uniforms] in *; subst.
  destruct af; run_frame; rewrite E1;
    match goal with
    | |- context [Main.drawStars ?l ?g1] =>
        destruct (Main_drawStars_detail l g1 _ _ _ eq_refl eq_refl eq_refl)
          as (g2 & E2 & Hm2 & Hv2 & HS2 & He2 & Hd2)
    end;
    rewrite E2; open_state g2; run_frame;
    match goal with
    | |- context [Main.Ballerina.render ?b ?g] =>
        destruct (Main_Ballerina_render_prims b g _ _ eq_refl eq_refl)
          as (g3 & E3 & Hm3 & Hv3 & HS3 & He3 & Hpm3 & Hd3 & Hp3 & Hf3)
    end;
    rewrite E3; open_state g3;
    (eexists; split; [reflexivity | ]);
    cbn [modelMatrix viewMatrix projectionMatrix MS eye drawn uniforms
         contents] in *;
    rewrite app_nil_r, Hu1 in Hd2; subst;
    (split; [exact Hd3 | ]);
    (split; [exact Hp3 | split; [exact Hf3 | split; [reflexivity | ]]]);
    do 3 eexists; repeat split.
Qed.

(** X13. A frame of [main.js], from every state of the page: the draws of
    the frame before are gone; first the stars, as they are after their
    update, are drawn as spheres seen from the fixed eye (0, 0, 10), under
    the identity moved to that eye, with the orthographic projection; then
    come the fifteen primitives of the ballerina. *)
Theorem frame_draws_sky_then_figure (ts : Q) (w : Main.World) :
  exists w' figure,
    Main.render ts w = Ok tt w'
    /\ rev (drawn (Main.gfx w'))
       = map (star_call Main.starColour
                (Some (MV.ortho left right bottom ytop near far))
                (MV.lookAt (vec3 0 0 10) Main.at_ up)
                (MV.mult MV.mat4 (MV.translate 0 0 10)))
           (Main.stars w')
         ++ figure
    /\ map prim figure
       = [Sphere; Cone; Sphere; Sphere; Cube; Cone; Cone; Cube; Cube;
          Cube; Cube; Cube; Cube; Cube; Cube].
Proof.
  destruct (Main_render_detail ts w) as (g' & E & Hd & Hp & _).
  exists (Main.after_frame ts w g'), (rev (firstn 15 (drawn g'))).
  split; [exact E | split; [ | exact Hp]].
  cbn [Main.after_frame Main.gfx Main.stars].
  match type of Hd with _ = ?l => transitivity (rev l) end;
    [f_equal; exact Hd | ].
  rewrite rev_app_distr, rev_involutive; reflexivity.
Qed.

(** X14. The camera of [main.js] after a frame, from every state of the
    page: its angle has grown by half the time step, the eye is on the
    circle of radius 20 at height 3 at that angle, the view matrix looks
    from there at (0, 1, 0), the model matrix is the identity again and
    the projection is the orthographic one. *)
Theorem camera_orbits_the_figure (ts : Q) (w : Main.World) :
  exists w' m v p,
    Main.render ts w = Ok tt w'
    /\ Main.cameraAngle w' = Main.cameraAngle w + Main.frame_dt ts w * 0.5
    /\ eye (Main.gfx w') = Some (orbit (Main.cameraAngle w'))
    /\ viewMatrix (Main.gfx w') = Some v
    /\ contents v = MV.lookAt (orbit (Main.cameraAngle w')) Main.at_ up
    /\ modelMatrix (Main.gfx w') = Some m /\ contents m = MV.mat4
    /\ projectionMatrix (Main.gfx w') = Some p
    /\ contents p = MV.ortho left right bottom ytop near far.
Proof.
  destruct (Main_render_detail ts w)
    as (g' & E & _ & _ & _ & He & m & v & p & Hm & Hcm & Hv & Hcv & Hp
        & Hcp).
  exists (Main.after_frame ts w g'), m, v, p.
  cbn [Main.after_frame Main.gfx Main.cameraAngle].
  repeat split; assumption.
Qed.

Lemma star_call_fully_lit colour proj view parent l :
  Forall (fully_lit proj) (map (star_call colour proj view parent) l).
Proof.
  induction l as [|s l IH]; cbn [map]; constructor; [ | exact IH].
  do 2 eexists; reflexivity.
Qed.

(** X16. Every primitive that a frame of [main.js] draws is drawn with
    all the uniforms of the shader set: the orthographic projection, a
    model-view matrix with the normal matrix that belongs to it, the
    ambient and diffuse products of one colour, the one specular product
    that [setColor] computes whatever its argument, the light position and
    the shininess. *)
Theorem every_draw_is_fully_lit (ts : Q) (w : Main.World) :
  exists w',
    Main.render ts w = Ok tt w'
    /\ Forall (fully_lit (Some (MV.ortho left right bottom ytop near far)))
         (drawn (Main.gfx w')).
Proof.
  destruct (Main_render_detail ts w) as (g' & E & Hd & _ & Hf & _).
  exists (Main.after_frame ts w g'); split; [exact E | ].
  cbn [Main.after_frame Main.gfx]; rewrite Hd.
  apply Forall_app; split; [exact Hf | ].
  apply Forall_rev, star_call_fully_lit.
Qed.

(** The ballerina of the variant is drawn as one cube. *)
Lemma Phased_Ballerina_render_spec b g m v :
  modelMatrix g = Some m -> viewMatrix g = Some v ->
  exists g', Phased.Ballerina.render b g = Ok tt g'
    /\ eye g' = eye g
    /\ drawn g'
       = call Cube (vec4 1 0.8 0.8 1) (u_projectionMatrix (uniforms g))
           (contents v)
           (transformed (contents m)
              [MV.translate (v0 (Phased.Ballerina.position b))
                            (v1 (Phased.Ballerina.position b))
                            (v2 (Phased.Ballerina.position b));
               MV.scale (Phased.Ballerina.scale b) (Phased.Ballerina.scale b)
                        (Phased.Ballerina.scale b);
               MV.translate 0 (-1.2) 0;
               MV.rotate (Phased.Ballerina.legRotation b) (vec3 1 0 0);
               MV.scale 0.2 1 0.2])
         :: drawn g.
Proof.
  intros Hm Hv; open_state g; destruct un.
  match goal with |- exists g', ?p ?g0 = _ /\ _ => run_on p g0 end.
  eexists; split; [reflexivity | split; reflexivity].
Qed.

Lemma Phased_drawStars_detail l g m v :
  modelMatrix g = Some m -> viewMatrix g = Some v ->
  exists g', Phased.drawStars l g = Ok tt g'
    /\ modelMatrix g' = Some m /\ viewMatrix g' = Some v
    /\ MS g' = MS g /\ eye g' = eye g
    /\ u_projectionMatrix (uniforms g') = u_projectionMatrix (uniforms g)
    /\ drawn g'
       = rev (map (star_call Phased.starColour
                     (u_projectionMatrix (uniforms g))
                     (contents v) (contents m)) l) ++ drawn g.
Proof. exact (Stars_draw_spec Phased.starColour l g m v). Qed.

(** A frame of the variant in detail. *)
Lemma Phased_render_detail ts w :
  let b := Phased.Ballerina.update (Phased.frame_dt ts w)
             (Phased.ballerina w) in
  exists g', Phased.render ts w = Ok tt (Phased.after_frame ts w g')
    /\ eye g' = Some (vec3 0 0 10)
    /\ drawn g'
       = call Cube (vec4 1 0.8 0.8 1)
           (Some (MV.ortho left right bottom ytop near far))
           (MV.lookAt (vec3 0 0 10) Phased.at_ up)
           (transformed MV.mat4
              [MV.translate (v0 (Phased.Ballerina.position b))
                            (v1 (Phased.Ballerina.position b))
                            (v2 (Phased.Ballerina.position b));
               MV.scale (Phased.Ballerina.scale b) (Phased.Ballerina.scale b)
                        (Phased.Ballerina.scale b);
               MV.translate 0 (-1.2) 0;
               MV.rotate (Phased.Ballerina.legRotation b) (vec3 1 0 0);
               MV.scale 0.2 1 0.2])
         :: rev (map (star_call Phased.starColour
                        (Some (MV.ortho left right bottom ytop near far))
                        (MV.lookAt (vec3 0 0 10) Phased.at_ up) MV.mat4)
                   (fst (Star.updateAll (Phased.frame_dt ts w)
                           (Phased.stars w) (Phased.randoms w)))).
Proof.
  destruct w as [g d pt rf af st b rn rq].
  destruct (beginFrame_detail Phased.at_ g)
    as (g1 & E1 & m1 & v1 & Hm1 & Hv1 & Hcm & Hcv & HS1 & He1 & Hd1 & Hu1
        & _).
  destruct m1 as [om cm]; destruct v1 as [ov cv]; cbn [contents] in *.
  subst cm cv.
  open_state g1; cbn [drawn uniforms] in *; subst.
  destruct af; run_frame; rewrite E1;
    match goal with
    | |- context [Phased.drawStars ?l ?g1] =>
        destruct (Phased_drawStars_detail l g1 _ _ eq_refl eq_refl)
          as (g2 & E2 & Hm2 & Hv2 & HS2 & He2 & Hu2 & Hd2)
    end;
    rewrite E2; open_state g2; run_frame;
    match goal with
    | |- context [Phased.Ballerina.render ?b ?g] =>
        destruct (Phased_Ballerina_render_spec b g _ _ eq_refl eq_refl)
          as (g3 & E3 & He3 & Hd3)
    end;
    rewrite E3; open_state g3;
    (eexists; split; [reflexivity | ]);
    cbn [modelMatrix viewMatrix projectionMatrix MS eye drawn uniforms
         contents] in *;
    rewrite app_nil_r, Hu1 in Hd2; rewrite Hu2, Hu1 in Hd3; subst;
    (split; reflexivity).
Qed.

Lemma Phased_reachable_pose w :
  Phased.reachable w -> Phased_invariant w.
Proof.
  intros [es H].
  apply Phased_session_inv in H; destruct H as (w1 & H0 & H1).
  apply (Phased_events_invariant es w1 w H1).
  apply (Phased_init_invariant Phased.loaded w1 H0).
  apply Phased_loaded_invariant.
Qed.

(** X15. A frame of the variant on any page that the events lead to: the
    stars, as they are after their update, are drawn as spheres seen from
    the eye (0, 0, 10), and then one cube for the ballerina, the same cube
    in every frame: neither its clock nor its phase shows in what is
    drawn. *)
Theorem variant_frame_draws_one_still_cube (w : Phased.World) (ts : Q) :
  Phased.reachable w ->
  exists w',
    Phased.render ts w = Ok tt w'
    /\ rev (drawn (Phased.gfx w'))
       = map (star_call Phased.starColour
                (Some (MV.ortho left right bottom ytop near far))
                (MV.lookAt (vec3 0 0 10) Phased.at_ up) MV.mat4)
           (Phased.stars w')
         ++ [call Cube (vec4 1 0.8 0.8 1)
               (Some (MV.ortho left right bottom ytop near far))
               (MV.lookAt (vec3 0 0 10) Phased.at_ up)
               (transformed MV.mat4
                  [MV.translate 0 0 0; MV.scale 1 1 1;
                   MV.translate 0 (-1.2) 0; MV.rotate 0 (vec3 1 0 0);
                   MV.scale 0.2 1 0.2])].
Proof.
  intros Hw; apply Phased_reachable_pose in Hw; destruct Hw as (Hp & Hs & Hl).
  destruct (Phased_render_detail ts w) as (g' & E & _ & Hd).
  destruct (Phased_update_keeps (Phased.frame_dt ts w) (Phased.ballerina w))
    as (Hp' & Hs' & Hl').
  rewrite Hp', Hs', Hl', Hp, Hs, Hl in Hd; cbn [v0 v1 v2] in Hd.
  exists (Phased.after_frame ts w g'); split; [exact E | ].
  cbn [Phased.after_frame Phased.gfx Phased.stars].
  rewrite Hd; cbn [rev]; rewrite rev_involutive; reflexivity.
Qed.

(** X17. A frame of the variant, from every state of the page, a stale
    stack or missing matrices included: [render] returns, the stack is
    empty afterwards, and [gPush] and [gPop] have each been called once
    per star and twice for the ballerina. *)
Theorem variant_render_balances_stack (ts : Q) (w : Phased.World) :
  exists w',
    Phased.render ts w = Ok tt w'
    /\ MS (Phased.gfx w') = []
    /\ pushes (Phased.gfx w')
       = (pushes (Phased.gfx w) + (length (Phased.stars w) + 2))%nat
    /\ pops (Phased.gfx w')
       = (pops (Phased.gfx w) + (length (Phased.stars w) + 2))%nat.
Proof.
  destruct (Phased_render_spec ts w) as (g' & E & HS & Hp & Hq).
  exists (Phased.after_frame ts w g'); split; [exact E | ].
  cbn [Phased.after_frame Phased.gfx]; auto.
Qed.

Lemma Main_set_gfx (w : Main.World) g :
  Main.stars w{{ Main.gfx := g }} = Main.stars w
  /\ Main.ballerina w{{ Main.gfx := g }} = Main.ballerina w
  /\ Main.randoms w{{ Main.gfx := g }} = Main.randoms w
  /\ Main.animFlag w{{ Main.gfx := g }} = Main.animFlag w
  /\ Main.dt w{{ Main.gfx := g }} = Main.dt w
  /\ Main.cameraAngle w{{ Main.gfx := g }} = Main.cameraAngle w
  /\ Main.requested w{{ Main.gfx := g }} = Main.requested w.
Proof. destruct w; repeat split. Qed.

(** X18. In a page with the canvas, WebGL and the button,
    [window.onload] of [main.js] draws one still frame: it returns with
    the animation off, no frame callback requested and a time step of 0;
    the clock of the ballerina and the angle of the camera are 0, and
    every star is where it was created, as long as [Math.random()] returns
    numbers in [0, 1). *)
Theorem onload_draws_a_still_frame :
  working = true -> random_in_unit ->
  exists w,
    Main.init Main.loaded = Ok tt w
    /\ Main.animFlag w = false /\ Main.requested w = 0%nat
    /\ Main.dt w = 0
    /\ Main.Ballerina.time (Main.ballerina w) == 0
    /\ Main.cameraAngle w == 0
    /\ Forall2 same_place (Main.stars Main.loaded) (Main.stars w).
Proof.
  intros Hb Hr.
  destruct (Main_init_spec Main.loaded Hb) as (ga & g' & E & _).
  eexists; split; [exact E | ].
  destruct (Main_set_gfx Main.loaded ga)
    as (Hst & Hbl & Hrn & Ha & Hd & Hc & Hq).
  assert (Hf : Main.frame_dt 0 Main.loaded{{ Main.gfx := ga }} = 0).
  { unfold Main.frame_dt; rewrite Ha, Hd; reflexivity. }
  cbn [Main.after_frame Main.animFlag Main.requested Main.dt Main.ballerina
       Main.cameraAngle Main.stars].
  rewrite Hf, Ha, Hq, Hbl, Hc, Hst, Hrn.
  do 3 (split; [reflexivity | ]).
  split; [ | split].
  - cbv [Main.loaded Main.ballerina Main.Ballerina.update
         Main.Ballerina.constructor Main.Ballerina.time apply_update
         constant]; ring.
  - cbv [Main.loaded Main.cameraAngle]; ring.
  - apply updateAll_still; [reflexivity | ].
    unfold Main.loaded; cbn [Main.stars]; apply create_within_bounds.
    exact Hr.
Qed.

End FrameDetails.

(** ** Edge cases *)

Section EdgeCases.
Context {math : JsMath} {mv : MV.Lib} {browser : Browser}.

(** X19. The knees of the ballerina of [main.js] never straighten: the
    angle by which [drawLegs] turns each shin about the x axis is at
    least 30 degrees at every time; that of the left shin is at most 75
    when the sine of twice the time is at most 1, and that of the right
    shin when the cosine is. *)
Theorem knees_stay_bent (b : Main.Ballerina.t) :
  30 <= - Main.Ballerina.kneeBendL b
  /\ 30 <= - Main.Ballerina.kneeBendR b
  /\ (sin (Main.Ballerina.time b * 2) <= 1 ->
      - Main.Ballerina.kneeBendL b <= 75)
  /\ (cos (Main.Ballerina.time b * 2) <= 1 ->
      - Main.Ballerina.kneeBendR b <= 75).
Proof.
  unfold Main.Ballerina.kneeBendL, Main.Ballerina.kneeBendR.
  pose proof (Q.le_max_l 10 (25 * sin (Main.Ballerina.time b * 2))) as Hl.
  pose proof (Q.le_max_l 10 (25 * cos (Main.Ballerina.time b * 2))) as Hr.
  split; [lra | split; [lra | split]].
  - intros Hs.
    assert (Qmax 10 (25 * sin (Main.Ballerina.time b * 2)) <= 25)
      by (apply Q.max_lub; lra).
    lra.
  - intros Hc.
    assert (Qmax 10 (25 * cos (Main.Ballerina.time b * 2)) <= 25)
      by (apply Q.max_lub; lra).
    lra.
Qed.

(** X20. Nothing can be drawn before the first frame: while the model
    matrix is [undefined], as it is when the script has been loaded, the
    drawing methods of the stars and of both ballerinas throw a
    [TypeError], for the first transform reads a property of
    [undefined]. *)
Theorem drawing_without_model_matrix_throws (g : Gfx) :
  modelMatrix g = None ->
  (forall colour s, Star.draw colour s g = Throw TypeError)
  /\ (forall l, Main.drawStars l g = Throw TypeError)
  /\ (forall b, Main.Ballerina.render b g = Throw TypeError)
  /\ (forall b, Phased.Ballerina.render b g = Throw TypeError).
Proof.
  intros H; destruct g as [no mm vm mvm pm nm ms ey ap dp sp un dr pu po].
  cbn [modelMatrix] in H; subst mm.
  repeat split; intros; try reflexivity.
  destruct ey; reflexivity.
Qed.

End EdgeCases.

(** ** The flag that nothing reads *)

Section FlagFacts.
Context {math : JsMath} {mv : MV.Lib} {browser : Browser}.

(** X21. [resetTimerFlag] is [true] on every page of [main.js]: the
    script sets it to [true] when it is loaded, the button sets it to
    [true] again, and nothing else assigns it. *)
Theorem resetTimerFlag_is_always_true (w : Main.World) :
  Main.reachable w -> Main.resetTimerFlag w = true.
Proof.
  revert w; apply Main_reachable_induction.
  - intros ga g'; reflexivity.
  - intros w w' H Hc.
    destruct w as [g d pt rf af st b ca rn rq]; cbn [Main.resetTimerFlag] in H.
    destruct af; injection Hc as <-; [exact H | reflexivity].
  - intros w k ts g' H _; cbn [Main.after_frame Main.resetTimerFlag].
    destruct w; exact H.
Qed.

End FlagFacts.

(** ** The further properties on concrete pages *)

Import Sym.

Lemma Inputs_running_reachable :
  Main.reachable Inputs.running.
Proof. exists [Main.Click; Main.Frame 16]; vm_compute; reflexivity. Qed.

Lemma Inputs_paused_reachable :
  Main.reachable Inputs.paused.
Proof.
  exists [Main.Click; Main.Frame 16; Main.Click]; vm_compute; reflexivity.
Qed.

Lemma Inputs_phased_advanced_reachable :
  Phased.reachable Inputs.phased_advanced.
Proof.
  exists [Phased.Click; Phased.Frame 2500]; vm_compute; reflexivity.
Qed.

Lemma stars_keep_their_make_witness :
  Main.reachable Inputs.running
  /\ Forall2 same_make
       (Main.stars (Main.loaded))
       (Main.stars Inputs.running)
  /\ length (Main.stars Inputs.running) = 50%nat.
Proof.
  split; [exact Inputs_running_reachable | ].
  apply (stars_keep_their_make Inputs.running).
  exact Inputs_running_reachable.
Defined.

Lemma stars_stay_in_ranges_witness :
  random_in_unit
  /\ Main.reachable Inputs.running
  /\ Forall within_bounds (Main.stars Inputs.running)
  /\ Forall star_in_ranges (Main.stars Inputs.running).
Proof.
  split; [exact Sym_random_in_unit | ].
  split; [exact Inputs_running_reachable | ].
  apply (stars_stay_in_ranges Inputs.running).
  - exact Sym_random_in_unit.
  - exact Inputs_running_reachable.
Defined.

Lemma ballerina_never_turns_witness :
  Main.reachable Inputs.paused
  /\ Main_ballerina_stands (Main.ballerina Inputs.paused).
Proof.
  split; [exact Inputs_paused_reachable | ].
  apply (ballerina_never_turns Inputs.paused).
  exact Inputs_paused_reachable.
Defined.

Lemma toggling_twice_witness :
  Main.animFlag Inputs.running = true
  /\ exists w',
       forEach (Main.handle)
         (Main.Click :: Main.Click :: map Main.Frame [32; 48]) Inputs.running
       = Ok tt w'
       /\ Main.animFlag w' = true
       /\ Main.requested w' = S (Main.requested Inputs.running).
Proof.
  split; [vm_compute; reflexivity | ].
  apply (toggling_twice_adds_a_frame_loop Inputs.running).
  vm_compute; reflexivity.
Defined.

Lemma paused_page_comes_to_rest_witness :
  Main.animFlag Inputs.paused = false
  /\ (Main.requested Inputs.paused <= length [32; 48])%nat
  /\ exists w',
       forEach (Main.handle) (map Main.Frame [32; 48])
         Inputs.paused
       = Ok tt w'
       /\ Main.animFlag w' = false
       /\ Main.requested w' = 0%nat
       /\ forall ts, Main.handle (Main.Frame ts) w' = Ok tt w'.
Proof.
  assert (H : (Main.requested Inputs.paused <= length [32; 48])%nat)
    by (vm_compute; repeat constructor).
  split; [vm_compute; reflexivity | ].
  split; [exact H | ].
  apply (paused_page_comes_to_rest Inputs.paused);
    [vm_compute; reflexivity | exact H].
Defined.

Lemma consecutive_frames_dt_witness :
  Main.animFlag Inputs.running = true
  /\ Main.requested Inputs.running <> 0%nat
  /\ exists w',
       forEach (Main.handle)
         [Main.Frame 32; Main.Frame 48] Inputs.running
       = Ok tt w'
       /\ Main.dt w' = (48 - 32) / 1000.
Proof.
  assert (H : Main.requested Inputs.running <> 0%nat)
    by (vm_compute; discriminate).
  split; [vm_compute; reflexivity | ].
  split; [exact H | ].
  destruct (consecutive_frames_dt Inputs.running 32 48)
    as (w' & E & Hd & _); [vm_compute; reflexivity | exact H | ].
  exists w'; split; [exact E | exact Hd].
Defined.

Lemma phase_stays_in_range_witness :
  Phased.reachable Inputs.phased_advanced
  /\ Phased_clock_in_range (Phased.ballerina Inputs.phased_advanced).
Proof.
  split; [exact Inputs_phased_advanced_reachable | ].
  apply (phase_stays_in_range Inputs.phased_advanced).
  exact Inputs_phased_advanced_reachable.
Defined.

Lemma three_advances_return_witness :
  Phased.Ballerina.phase
    (Phased.Ballerina.update 2.5
       (Phased.Ballerina.update 2.5
          (Phased.Ballerina.update 2.5
             (Phased.Ballerina.constructor (vec3 0 0 0) 1))))
  = 0%Z.
Proof.
  apply (three_advances_return
           (Phased.Ballerina.constructor (vec3 0 0 0) 1) 2.5 2.5 2.5).
  - cbn; lia.
  - reflexivity.
  - reflexivity.
  - reflexivity.
Defined.

Lemma variant_stars_witness :
  random_in_unit
  /\ Phased.reachable Inputs.phased_advanced
  /\ length (Phased.stars Inputs.phased_advanced) = 50%nat.
Proof.
  split; [exact Sym_random_in_unit | ].
  split; [exact Inputs_phased_advanced_reachable | ].
  apply (variant_stars_stay_in_ranges
           Inputs.phased_advanced).
  - exact Sym_random_in_unit.
  - exact Inputs_phased_advanced_reachable.
Defined.

Lemma stars_are_drawn_as_siblings_witness :
  modelMatrix Inputs.viewing = Some Inputs.identity
  /\ exists g',
       forEach (Star.draw Main.starColour)
         [Inputs.star; Inputs.star] Inputs.viewing
       = Ok tt g'
       /\ modelMatrix g' = Some Inputs.identity
       /\ MS g' = MS Inputs.viewing.
Proof.
  split; [reflexivity | ].
  destruct (stars_are_drawn_as_siblings Main.starColour
              [Inputs.star; Inputs.star] Inputs.viewing Inputs.identity _
              eq_refl eq_refl)
    as (g' & E & Hm & HS & _).
  exists g'; split; [exact E | split; [exact Hm | exact HS]].
Defined.

Lemma legs_are_drawn_as_chains_witness :
  modelMatrix Inputs.viewing = Some Inputs.identity
  /\ exists g',
       Main.Ballerina.drawLegs Inputs.ballerina
         Inputs.viewing
       = Ok tt g'
       /\ modelMatrix g' = Some Inputs.identity
       /\ MS g' = MS Inputs.viewing.
Proof.
  split; [reflexivity | ].
  destruct (legs_are_drawn_as_chains Inputs.ballerina
              Inputs.viewing Inputs.identity _
              eq_refl eq_refl)
    as (g' & E & Hm & HS & _).
  exists g'; split; [exact E | split; [exact Hm | exact HS]].
Defined.

Lemma variant_frame_witness :
  Phased.reachable Inputs.phased_advanced
  /\ exists w',
       Phased.render 3000 Inputs.phased_advanced
       = Ok tt w'.
Proof.
  split; [exact Inputs_phased_advanced_reachable | ].
  destruct (variant_frame_draws_one_still_cube
              Inputs.phased_advanced 3000 Inputs_phased_advanced_reachable)
    as (w' & E & _).
  exists w'; exact E.
Defined.

Lemma onload_draws_a_still_frame_witness :
  working = true
  /\ random_in_unit
  /\ exists w,
       Main.init Main.loaded = Ok tt w
       /\ Main.animFlag w = false /\ Main.requested w = 0%nat.
Proof.
  split; [reflexivity | ].
  split; [exact Sym_random_in_unit | ].
  destruct (onload_draws_a_still_frame (browser := Sym.browser) eq_refl
              Sym_random_in_unit)
    as (w & E & Ha & Hq & _).
  exists w; split; [exact E | split; [exact Ha | exact Hq]].
Defined.

Lemma session_throws_without_webgl :
  Main.session (browser := Inputs.no_webgl) [Main.Click; Main.Frame 16]
    Main.loaded
  = Throw TypeError.
Proof.
  exact (session_throws_only_at_setup (browser := Inputs.no_webgl)
           [Main.Click; Main.Frame 16] Main.loaded).
Defined.

Lemma knees_stay_bent_witness :
  30 <= - Main.Ballerina.kneeBendL Inputs.ballerina
  /\ - Main.Ballerina.kneeBendL Inputs.ballerina <= 75.
Proof.
  destruct (knees_stay_bent Inputs.ballerina) as (Hl & _ & Hu & _).
  split; [exact Hl | apply Hu; vm_compute; discriminate].
Defined.

Lemma drawing_without_model_matrix_witness :
  modelMatrix Gfx0 = None
  /\ Star.draw Main.starColour Inputs.star Gfx0
     = Throw TypeError.
Proof.
  split; [reflexivity | ].
  apply (drawing_without_model_matrix_throws Gfx0 eq_refl).
Defined.

Lemma resetTimerFlag_witness :
  Main.reachable Inputs.paused
  /\ Main.resetTimerFlag Inputs.paused = true.
Proof.
  split; [exact Inputs_paused_reachable | ].
  apply (resetTimerFlag_is_always_true Inputs.paused).
  exact Inputs_paused_reachable.
Defined.
